(** * Hand detection (hand.c): defect aggregation, fingertip scan, frame loop

    A shallow embedding of [find_contour], [find_convex_hull], [find_fingers],
    [display] and the body of the loop of [main] of hand.c, and the
    properties of the hand model they compute.

    C [int] values are integers of Z reduced to 32 bits in two's complement
    after every arithmetic operation.  The fixed-size heap buffers
    [ctx->fingers] and [ctx->defects] are lists updated by index.  The OpenCV
    calls are parameters of the development. *)

From Stdlib Require Import ZArith QArith Qabs Lia String.
From stdpp Require Import base list.

Local Open Scope Z_scope.

(** ** C [int] arithmetic *)

Module CInt.

Definition int_min : Z := - 2 ^ 31.
Definition int_max : Z := 2 ^ 31 - 1.

(** Reduction of an integer to the 32-bit two's complement range. *)
Definition wrap (z : Z) : Z := (z + 2 ^ 31) mod 2 ^ 32 - 2 ^ 31.

Definition add (a b : Z) : Z := wrap (a + b).
Definition sub (a b : Z) : Z := wrap (a - b).
Definition mul (a b : Z) : Z := wrap (a * b).

(** C's [/] truncates toward zero. *)
Definition div (a b : Z) : Z := wrap (a ÷ b).

(** [dist += sqrt(d)] with [dist] and [d] of type [int]: the sum is taken
    in [double] and converted back to [int], which truncates.  For
    [0 <= d] the fraction of [sqrt(d)] is dropped by that conversion, so
    the statement adds the integer square root.  ([sqrt] of a negative [d]
    is NaN and its conversion undefined; [Z.sqrt] gives 0 there.) *)
Definition add_sqrt (dist d : Z) : Z := wrap (dist + Z.sqrt d).

Definition in_range (z : Z) : Prop := int_min <= z <= int_max.

End CInt.

(** ** Data *)

Definition NUM_FINGERS : Z := 5.
Definition NUM_DEFECTS : Z := 8.

Record CvPoint := cvPoint { pt_x : Z; pt_y : Z }.

(** [CvConvexityDefect]: only the depth point is read by hand.c. *)
Record CvConvexityDefect := mkDefect { depth_point : CvPoint }.

Inductive colour := RED | GREEN | BLUE | YELLOW | PURPLE | GREY.

(** What [cvCircle] and [cvLine] put on an image. *)
Inductive shape :=
| Circle (center : CvPoint) (radius : Z) (color : colour) (thickness : Z)
| Line (pt1 pt2 : CvPoint) (color : colour) (thickness : Z).

(** [(cx - p.x) * (cx - p.x) + (cy - p.y) * (cy - p.y)] on [int]s, the
    expression of lines 212-215 and 253-254. *)
Definition sq_dist (cx cy : Z) (p : CvPoint) : Z :=
  CInt.add (CInt.mul (CInt.sub cx (pt_x p)) (CInt.sub cx (pt_x p)))
           (CInt.mul (CInt.sub cy (pt_y p)) (CInt.sub cy (pt_y p))).

(** [IplImage]: the pixels, the size, and what has been drawn on top.
    [Pixels] is the pixel data of a frame. *)
Record IplImage (Pixels : Type) := mkImage {
  pixels : Pixels;
  width : Z;
  height : Z;
  drawn : list shape
}.
Arguments mkImage {Pixels} _ _ _ _.
Arguments pixels {Pixels} _.
Arguments width {Pixels} _.
Arguments height {Pixels} _.
Arguments drawn {Pixels} _.

(** [struct ctx], without the handles and the scratch storage.  [Mask] is
    the pixel data of a thresholded image. *)
Record ctx (Pixels Mask : Type) := mkCtx {
  image : IplImage Pixels;
  thr_image : Mask;
  contour : option (list CvPoint);
  hull : option (list CvPoint);
  hand_center : CvPoint;
  fingers : list CvPoint;
  defects : list CvPoint;
  num_fingers : Z;
  hand_radius : Z;
  num_defects : Z
}.
Arguments mkCtx {Pixels Mask} _ _ _ _ _ _ _ _ _ _.
Arguments image {Pixels Mask} _.
Arguments thr_image {Pixels Mask} _.
Arguments contour {Pixels Mask} _.
Arguments hull {Pixels Mask} _.
Arguments hand_center {Pixels Mask} _.
Arguments fingers {Pixels Mask} _.
Arguments defects {Pixels Mask} _.
Arguments num_fingers {Pixels Mask} _.
Arguments hand_radius {Pixels Mask} _.
Arguments num_defects {Pixels Mask} _.

(** The locals of [find_fingers] that live across iterations. *)
Record regs := mkRegs { dist1 : Z; dist2 : Z; max_point : CvPoint }.

(** How one pass through the body of a [for] loop ends. *)
Inductive flow (A : Type) := Next (a : A) | Break (a : A).
Arguments Next {A} a.
Arguments Break {A} a.

Definition flow_state {A} (f : flow A) : A :=
  match f with Next a => a | Break a => a end.

(** The calls that reach the screen or the recording. *)
Inductive gui_call (Pixels Mask : Type) :=
| cvShowImage_output (img : IplImage Pixels)
| cvShowImage_thresholded (img : Mask)
| cvWriteFrame (img : IplImage Pixels).
Arguments cvShowImage_output {Pixels Mask} img.
Arguments cvShowImage_thresholded {Pixels Mask} img.
Arguments cvWriteFrame {Pixels Mask} img.

Section Hand.

Context {Pixels Mask : Type}.

Local Abbreviation ctx := (ctx Pixels Mask).
Local Abbreviation IplImage := (IplImage Pixels).
Local Abbreviation gui_call := (gui_call Pixels Mask).

Definition set_image v (c : ctx) : ctx :=
  mkCtx v (thr_image c) (contour c) (hull c) (hand_center c) (fingers c)
        (defects c) (num_fingers c) (hand_radius c) (num_defects c).
Definition set_thr_image v (c : ctx) : ctx :=
  mkCtx (image c) v (contour c) (hull c) (hand_center c) (fingers c)
        (defects c) (num_fingers c) (hand_radius c) (num_defects c).
Definition set_contour v (c : ctx) : ctx :=
  mkCtx (image c) (thr_image c) v (hull c) (hand_center c) (fingers c)
        (defects c) (num_fingers c) (hand_radius c) (num_defects c).
Definition set_hull v (c : ctx) : ctx :=
  mkCtx (image c) (thr_image c) (contour c) v (hand_center c) (fingers c)
        (defects c) (num_fingers c) (hand_radius c) (num_defects c).
Definition set_hand_center v (c : ctx) : ctx :=
  mkCtx (image c) (thr_image c) (contour c) (hull c) v (fingers c)
        (defects c) (num_fingers c) (hand_radius c) (num_defects c).
Definition set_fingers v (c : ctx) : ctx :=
  mkCtx (image c) (thr_image c) (contour c) (hull c) (hand_center c) v
        (defects c) (num_fingers c) (hand_radius c) (num_defects c).
Definition set_defects v (c : ctx) : ctx :=
  mkCtx (image c) (thr_image c) (contour c) (hull c) (hand_center c)
        (fingers c) v (num_fingers c) (hand_radius c) (num_defects c).
Definition set_num_fingers v (c : ctx) : ctx :=
  mkCtx (image c) (thr_image c) (contour c) (hull c) (hand_center c)
        (fingers c) (defects c) v (hand_radius c) (num_defects c).
Definition set_hand_radius v (c : ctx) : ctx :=
  mkCtx (image c) (thr_image c) (contour c) (hull c) (hand_center c)
        (fingers c) (defects c) (num_fingers c) v (num_defects c).
Definition set_num_defects v (c : ctx) : ctx :=
  mkCtx (image c) (thr_image c) (contour c) (hull c) (hand_center c)
        (fingers c) (defects c) (num_fingers c) (hand_radius c) v.

(** *** The OpenCV calls *)

(** The smoothing, colour conversion, range test and opening of
    [filter_and_threshold], as one function of the input pixels. *)
Variable skin_filter : Pixels -> Mask.
(** The list linked through [h_next] that [cvFindContours] returns. *)
Variable cvFindContours : Mask -> list (list CvPoint).
Variable cvContourArea : list CvPoint -> Q.
(** The three calls below return a [CvSeq *], which may be null. *)
Variable cvApproxPoly : list CvPoint -> option (list CvPoint).
Variable cvConvexHull2 : list CvPoint -> option (list CvPoint).
Variable cvConvexityDefects :
  list CvPoint -> list CvPoint -> option (list CvConvexityDefect).
(** What a read past the end of a [calloc]ed buffer finds at an index. *)
Variable stray : Z -> CvPoint.

(** ** filter_and_threshold, find_contour *)

Definition filter_and_threshold (c : ctx) : ctx :=
  set_thr_image (skin_filter (pixels (image c))) c.

(** The loop of lines 151-157 over the contours still to visit. *)
Fixpoint select_largest (contours : list (list CvPoint)) (max_area : Q)
         (contour : option (list CvPoint)) : option (list CvPoint) :=
  match contours with
  | [] => contour
  | tmp :: h_next =>
      let area := Qabs (cvContourArea tmp) in
      if Qlt_le_dec max_area area
      then select_largest h_next area (Some tmp)
      else select_largest h_next max_area contour
  end.

Definition find_contour (c : ctx) : ctx :=
  let contours := cvFindContours (thr_image c) in
  match select_largest contours 0%Q None with
  | Some contour => set_contour (cvApproxPoly contour) c
  | None => c
  end.

(** ** find_convex_hull *)

(** The loop of lines 195-201 at index [i], [arr] being
    [defect_array[i .. total-1]]; [i] stays below [total], an [int]. *)
Fixpoint sum_depth_points (arr : list CvConvexityDefect) (i x y : Z)
         (buf : list CvPoint) : Z * Z * list CvPoint :=
  match arr with
  | [] => (x, y, buf)
  | d :: rest =>
      if i <? NUM_DEFECTS then
        sum_depth_points rest (i + 1)
          (CInt.add x (pt_x (depth_point d)))
          (CInt.add y (pt_y (depth_point d)))
          (<[Z.to_nat i := cvPoint (pt_x (depth_point d))
                                   (pt_y (depth_point d))]> buf)
      else (x, y, buf)
  end.

(** The loop of lines 211-218. *)
Fixpoint sum_distances (arr : list CvConvexityDefect) (x y dist : Z) : Z :=
  match arr with
  | [] => dist
  | d :: rest =>
      sum_distances rest x y
        (CInt.add_sqrt dist (sq_dist x y (depth_point d)))
  end.

(** Lines 189-222: the block guarded by [defects && defects->total]. *)
Definition aggregate_defects (found : option (list CvConvexityDefect))
           (c : ctx) : ctx :=
  match found with
  | None => c
  | Some defect_array =>
      let total := Z.of_nat (length defect_array) in
      if total =? 0 then c
      else
        let '(x, y, buf) :=
          sum_depth_points defect_array 0 0 0 (defects c) in
        let x := CInt.div x total in
        let y := CInt.div y total in
        let c := set_defects buf c in
        let c := set_num_defects total c in
        let c := set_hand_center (cvPoint x y) c in
        let dist := sum_distances defect_array x y 0 in
        set_hand_radius (CInt.div dist total) c
  end.

Definition find_convex_hull (c : ctx) : ctx :=
  let c := set_hull None c in
  match contour c with
  | None => c
  | Some points =>
      let c := set_hull (cvConvexHull2 points) c in
      match hull c with
      | Some h => aggregate_defects (cvConvexityDefects points h) c
      | None => c
      end
  end.

(** ** find_fingers *)

(** The test of lines 256-257. *)
Definition is_finger (c : ctx) (r : regs) (dist : Z) : bool :=
  (dist <? dist1 r) && (dist1 r >? dist2 r)
  && negb (pt_x (max_point r) =? 0)
  && (pt_y (max_point r) <? CInt.sub (height (image c)) 10).

(** Lines 249-266: the body of the loop at the contour point [p]. *)
Definition scan_point (p : CvPoint) (s : ctx * regs) : flow (ctx * regs) :=
  let '(c, r) := s in
  let cx := pt_x (hand_center c) in
  let cy := pt_y (hand_center c) in
  let dist := sq_dist cx cy p in
  if is_finger c r dist then
    let c := set_fingers
               (<[Z.to_nat (num_fingers c) := max_point r]> (fingers c)) c in
    let c := set_num_fingers (CInt.add (num_fingers c) 1) c in
    if num_fingers c >=? CInt.add NUM_FINGERS 1 then Break (c, r)
    else Next (c, mkRegs dist (dist1 r) p)
  else Next (c, mkRegs dist (dist1 r) p).

(** The loop of line 248 over [points[i .. n-1]]. *)
Fixpoint scan_contour (points : list CvPoint) (s : ctx * regs)
  : flow (ctx * regs) :=
  match points with
  | [] => Next s
  | p :: rest =>
      match scan_point p s with
      | Break s' => Break s'
      | Next s' => scan_contour rest s'
      end
  end.

(** [uninit] is what the stack slot of [max_point] holds on entry. *)
Definition find_fingers (uninit : CvPoint) (c : ctx) : ctx :=
  let c := set_num_fingers 0 c in
  match contour c, hull c with
  | Some points, Some _ =>
      fst (flow_state (scan_contour points (c, mkRegs 0 0 uninit)))
  | _, _ => c
  end.

(** ** display and the loop of main *)

Definition draw (s : shape) (img : IplImage) : IplImage :=
  mkImage (pixels img) (width img) (height img) (drawn img ++ [s]).

(** [buf[i]] for a buffer of the heap. *)
Definition read (buf : list CvPoint) (i : Z) : CvPoint :=
  default (stray i) (buf !! Z.to_nat i).

(** Lines 286-293, [left] iterations from index [i]. *)
Fixpoint draw_fingers (left : nat) (i : Z) (c : ctx) : ctx :=
  match left with
  | O => c
  | S left' =>
      let c := set_image
                 (draw (Circle (read (fingers c) i) 10 GREEN 3) (image c)) c in
      let c := set_image
                 (draw (Line (hand_center c) (read (fingers c) i) YELLOW 1)
                       (image c)) c in
      draw_fingers left' (i + 1) c
  end.

(** Lines 295-298, [left] iterations from index [i]. *)
Fixpoint draw_defects (left : nat) (i : Z) (c : ctx) : ctx :=
  match left with
  | O => c
  | S left' =>
      let c := set_image
                 (draw (Circle (read (defects c) i) 2 GREY 2) (image c)) c in
      draw_defects left' (i + 1) c
  end.

(** Lines 282-298: what the test of line 276 guards. *)
Definition draw_hand (c : ctx) : ctx :=
  let c := set_image
             (draw (Circle (hand_center c) 5 PURPLE 1) (image c)) c in
  let c := set_image
             (draw (Circle (hand_center c) (hand_radius c) RED 1)
                   (image c)) c in
  let c := draw_fingers (Z.to_nat (num_fingers c)) 0 c in
  draw_defects (Z.to_nat (num_defects c)) 0 c.

Definition display (c : ctx) : ctx * list gui_call :=
  let c := if num_fingers c =? NUM_FINGERS then draw_hand c else c in
  (c, [cvShowImage_output (image c); cvShowImage_thresholded (thr_image c)]).

(** Lines 316-324: one pass of the loop of [main] on the frame that
    [cvQueryFrame] returns. *)
Definition frame_iteration (uninit : CvPoint) (frame : IplImage) (c : ctx)
  : ctx * list gui_call :=
  let c := set_image frame c in
  let c := filter_and_threshold c in
  let c := find_contour c in
  let c := find_convex_hull c in
  let c := find_fingers uninit c in
  let '(c, shown) := display c in
  (c, shown ++ [cvWriteFrame (image c)]).

(** The loop over the frames of a capture, with the calls it made. *)
Fixpoint run_frames (uninit : CvPoint) (frames : list IplImage) (c : ctx)
  : ctx * list gui_call :=
  match frames with
  | [] => (c, [])
  | frame :: later =>
      let '(c, calls) := frame_iteration uninit frame c in
      let '(c, calls') := run_frames uninit later c in
      (c, calls ++ calls')
  end.

(** The context when the loop of [main] is entered: [struct ctx ctx = { }],
    then [init_capture] and [init_ctx].  [fresh] is the content of the
    image that [cvCreateImage] returns for [thr_image]. *)
Definition init_ctx (first : IplImage) (fresh : Mask) : ctx :=
  mkCtx first fresh None None (cvPoint 0 0)
        (replicate (Z.to_nat (NUM_FINGERS + 1)) (cvPoint 0 0))
        (replicate (Z.to_nat NUM_DEFECTS) (cvPoint 0 0))
        0 0 0.

End Hand.

(** ** The hand model in the words of its description

    The centre is the mean of the depth points and the radius the mean of
    the truncated distances to the centre, over unbounded integers. *)

Module Spec.

Definition sum (l : list Z) : Z := foldr Z.add 0 l.

(** The mean with truncating division. *)
Definition mean (l : list Z) : Z := sum l ÷ Z.of_nat (length l).

Definition center (pts : list CvPoint) : CvPoint :=
  cvPoint (mean (pt_x <$> pts)) (mean (pt_y <$> pts)).

Definition squaredDistance (a b : CvPoint) : Z :=
  (pt_x a - pt_x b) * (pt_x a - pt_x b)
  + (pt_y a - pt_y b) * (pt_y a - pt_y b).

Definition radius (center : CvPoint) (pts : list CvPoint) : Z :=
  mean ((fun p => Z.sqrt (squaredDistance center p)) <$> pts).

End Spec.

(** A point of an image at most 32768 pixels wide and high. *)
Definition pixel (p : CvPoint) : Prop :=
  0 <= pt_x p < 32768 /\ 0 <= pt_y p < 32768.

(** ** The fingertip scan seen from the contour *)

Section ScanIndex.

Context {Pixels Mask : Type}.
Implicit Types (c : ctx Pixels Mask) (points : list CvPoint).

(** The state in which the loop of [find_fingers] is entered. *)
Definition scan_start (uninit : CvPoint) c : ctx Pixels Mask * regs :=
  (set_num_fingers 0 c, mkRegs 0 0 uninit).

(** The loop arrives at index [i] of the contour, in state [s]. *)
Definition reaches (uninit : CvPoint) c points (i : nat)
           (s : ctx Pixels Mask * regs) : Prop :=
  scan_contour (take i points) (scan_start uninit c) = Next s.

(** The squared distance of [points[i]] to the hand centre. *)
Definition dist_at c points (i : nat) : Z :=
  match points !! i with
  | Some p => sq_dist (pt_x (hand_center c)) (pt_y (hand_center c)) p
  | None => 0
  end.

(** The distance one and two indices before [i], 0 where there is none. *)
Definition prev_dist c points (i : nat) : Z :=
  match i with O => 0 | S j => dist_at c points j end.
Definition prev2_dist c points (i : nat) : Z :=
  match i with S (S j) => dist_at c points j | _ => 0 end.

(** The contour point one index before [i]. *)
Definition prev_point (uninit : CvPoint) points (i : nat) : CvPoint :=
  match i with O => uninit | S j => default uninit (points !! j) end.

(** The pass at [p] from state [s] stores [q] as one more finger. *)
Definition appends (p : CvPoint) (s : ctx Pixels Mask * regs)
           (q : CvPoint) : Prop :=
  let after := (flow_state (scan_point p s)).1 in
  num_fingers after = num_fingers s.1 + 1
  /\ fingers after = <[Z.to_nat (num_fingers s.1) := q]> (fingers s.1).

(** The pass at [p] from state [s] leaves the fingers as they are. *)
Definition skips (p : CvPoint) (s : ctx Pixels Mask * regs) : Prop :=
  let after := (flow_state (scan_point p s)).1 in
  num_fingers after = num_fingers s.1 /\ fingers after = fingers s.1.

End ScanIndex.

(** The acceptance rule with the test against the origin [(0,0)]. *)
Definition origin_test_rule : Prop :=
  forall (Pixels Mask : Type) (c : ctx Pixels Mask) uninit points i p s,
    0 <= height (image c) <= CInt.int_max ->
    points !! i = Some p ->
    reaches uninit c points i s ->
    (dist_at c points i < dist1 s.2
     /\ dist1 s.2 > dist2 s.2
     /\ max_point s.2 <> cvPoint 0 0
     /\ pt_y (max_point s.2) < height (image c) - 10)
    <-> appends p s (max_point s.2).

(** The appended point read as the contour point two indices back. *)
Definition two_steps_behind_rule : Prop :=
  forall (Pixels Mask : Type) (c : ctx Pixels Mask) uninit points i p s,
    length (fingers c) = Z.to_nat (NUM_FINGERS + 1) ->
    points !! i = Some p ->
    reaches uninit c points i s ->
    num_fingers (flow_state (scan_point p s)).1 = num_fingers s.1 + 1 ->
    exists j q, i = S (S j) /\ points !! j = Some q
      /\ fingers (flow_state (scan_point p s)).1
           !! Z.to_nat (num_fingers s.1) = Some q.

(** [img] with the shapes [more] drawn on top of what it shows. *)
Definition overlay {Pixels} (more : list shape) (img : IplImage Pixels)
  : IplImage Pixels :=
  mkImage (pixels img) (width img) (height img) (drawn img ++ more).

(** ** Sample frames *)

Module Demo.

(** A frame is [true] when a hand is in view; the mask keeps that. *)
Definition hand_frame : IplImage bool := mkImage true 640 480 [].
Definition empty_frame : IplImage bool := mkImage false 640 480 [].
Definition start : ctx bool bool := init_ctx hand_frame false.
(** The same with the hand centre at [(50,50)]. *)
Definition centered : ctx bool bool :=
  set_hand_center (cvPoint 50 50) start.

Definition defect (x y : Z) : CvConvexityDefect := mkDefect (cvPoint x y).
Definition square_defects : list CvConvexityDefect :=
  [defect 0 0; defect 10 0; defect 0 10; defect 10 10].
Definition nine_defects : list CvConvexityDefect := replicate 9 (defect 9 9).

(** Contours with one peak of the distance to [(50,50)], at index 1. *)
Definition peak_contour : list CvPoint :=
  [cvPoint 10 50; cvPoint 5 50; cvPoint 10 50].
Definition left_edge_contour : list CvPoint :=
  [cvPoint 10 50; cvPoint 0 50; cvPoint 10 50].

(** Seven peaks of the distance to [(50,50)]. *)
Definition comb_contour : list CvPoint :=
  concat (replicate 7 [cvPoint 10 50; cvPoint 5 50]) ++ [cvPoint 10 50].

(** The stretch up to the sixth peak, with a found hull, and the rest. *)
Definition comb_head : list CvPoint := take 13 comb_contour.
Definition comb_tail : list CvPoint := drop 13 comb_contour.
Definition combed : ctx bool bool :=
  set_hull (Some []) (set_contour (Some comb_head) centered).

(** The state in which the scan of [comb_contour] arrives at index 12,
    with five fingers stored. *)
Definition five_found : ctx bool bool * regs :=
  Eval vm_compute in
    flow_state (scan_contour (take 12 comb_contour)
                  (scan_start (cvPoint 0 0) combed)).

Definition skin_filter (hand : bool) : bool := hand.
Definition cvFindContours (pts : list CvPoint) (hand : bool)
  : list (list CvPoint) := if hand then [pts] else [].
Definition cvContourArea (pts : list CvPoint) : Q := 1%Q.
Definition cvApproxPoly (pts : list CvPoint) := Some pts.
Definition cvConvexHull2 (pts : list CvPoint) := Some pts.
Definition cvConvexityDefects (arr : list CvConvexityDefect)
           (pts hull : list CvPoint) := Some arr.
Definition stray (i : Z) : CvPoint := cvPoint 0 0.

(** One pass of the loop of [main] with these calls. *)
Definition iteration (pts : list CvPoint) (arr : list CvConvexityDefect)
  := frame_iteration skin_filter (cvFindContours pts) cvContourArea
       cvApproxPoly cvConvexHull2 (cvConvexityDefects arr) stray
       (cvPoint 0 0).

(** The loop of [main] over some frames with these calls. *)
Definition run (pts : list CvPoint) (arr : list CvConvexityDefect)
  := run_frames skin_filter (cvFindContours pts) cvContourArea
       cvApproxPoly cvConvexHull2 (cvConvexityDefects arr) stray
       (cvPoint 0 0).

End Demo.

(** ** The scan as a list of peaks, the recording, the loop of main *)

Section Peaks.

Context {Pixels Mask : Type}.
Implicit Types (c : ctx Pixels Mask) (points : list CvPoint).

(** The test of lines 256-257 at index [i], read on the contour: the
    distances and the point of the indices before [i] stand for the
    registers. *)
Definition peak_at (uninit : CvPoint) c points (i : nat) : bool :=
  is_finger c
    (mkRegs (prev_dist c points i) (prev2_dist c points i)
            (prev_point uninit points i))
    (dist_at c points i).

(** The points [points[i-1]] of the indices [i < n] that pass the test, in
    the order of the contour. *)
Fixpoint peaks_below (uninit : CvPoint) c points (n : nat) : list CvPoint :=
  match n with
  | O => []
  | S i =>
      peaks_below uninit c points i
      ++ (if peak_at uninit c points i
          then [prev_point uninit points i] else [])
  end.

End Peaks.

(** The images handed to [cvWriteFrame] and to [cvShowImage("output")]. *)
Definition written {Pixels Mask} (calls : list (gui_call Pixels Mask))
  : list (IplImage Pixels) :=
  omap (fun g => match g with cvWriteFrame img => Some img | _ => None end)
       calls.
Definition shown {Pixels Mask} (calls : list (gui_call Pixels Mask))
  : list (IplImage Pixels) :=
  omap (fun g => match g with
                 | cvShowImage_output img => Some img
                 | _ => None
                 end)
       calls.

Section MainLoop.

Context {Pixels Mask : Type}.

Variable skin_filter : Pixels -> Mask.
Variable cvFindContours : Mask -> list (list CvPoint).
Variable cvContourArea : list CvPoint -> Q.
Variable cvApproxPoly : list CvPoint -> option (list CvPoint).
Variable cvConvexHull2 : list CvPoint -> option (list CvPoint).
Variable cvConvexityDefects :
  list CvPoint -> list CvPoint -> option (list CvConvexityDefect).
Variable stray : Z -> CvPoint.

(** The character ['q']. *)
Definition key_q : Z := 113.

(** The [do .. while (key != 'q')] of lines 315-327.  An input is the frame
    that [cvQueryFrame] returns in a pass and the key that [cvWaitKey]
    returns at its end.  [None]: the inputs end before a pass saw ['q'],
    and the loop is still running. *)
Fixpoint main_loop (uninit : CvPoint) (inputs : list (IplImage Pixels * Z))
         (c : ctx Pixels Mask)
  : option (ctx Pixels Mask * list (gui_call Pixels Mask)) :=
  match inputs with
  | [] => None
  | (frame, key) :: later =>
      let '(c, calls) :=
        frame_iteration skin_filter cvFindContours cvContourArea
          cvApproxPoly cvConvexHull2 cvConvexityDefects stray
          uninit frame c in
      if key =? key_q then Some (c, calls)
      else
        match main_loop uninit later c with
        | Some (c', calls') => Some (c', calls ++ calls')
        | None => None
        end
  end.

End MainLoop.

(** ** Arithmetic that stays in range *)

Lemma wrap_id z : CInt.in_range z -> CInt.wrap z = z.
Proof.
  unfold CInt.in_range, CInt.int_min, CInt.int_max, CInt.wrap. intros H.
  rewrite Z.mod_small by lia. lia.
Qed.

Lemma sqrt_int_bound d : 0 <= d <= CInt.int_max -> 0 <= Z.sqrt d <= 46340.
Proof.
  intros [H0 H1]. split; [apply Z.sqrt_nonneg|].
  change 46340 with (Z.sqrt CInt.int_max). by apply Z.sqrt_le_mono.
Qed.

Ltac in_int :=
  unfold CInt.in_range;
  change CInt.int_min with (-2147483648) in *;
  change CInt.int_max with 2147483647 in *;
  lia.

Lemma square_bound a m : - m <= a <= m -> 0 <= a * a <= m * m.
Proof.
  intros H. split; [apply Z.square_nonneg|].
  assert (0 <= (m - a) * (m + a)) by (apply Z.mul_nonneg_nonneg; lia). lia.
Qed.

Lemma sq_dist_exact x y p :
  0 <= x < 32768 -> 0 <= y < 32768 -> pixel p ->
  sq_dist x y p = Spec.squaredDistance (cvPoint x y) p
  /\ 0 <= sq_dist x y p <= CInt.int_max.
Proof.
  intros Hx Hy [Hpx Hpy].
  unfold sq_dist, Spec.squaredDistance, CInt.add, CInt.mul, CInt.sub.
  cbn [pt_x pt_y].
  pose proof (square_bound (x - pt_x p) 32767 ltac:(lia)).
  pose proof (square_bound (y - pt_y p) 32767 ltac:(lia)).
  rewrite (wrap_id (x - _)) by in_int.
  rewrite (wrap_id (y - _)) by in_int.
  rewrite !(wrap_id (_ * _)) by in_int.
  rewrite wrap_id by in_int.
  change CInt.int_max with 2147483647. lia.
Qed.

(** ** The two loops of find_convex_hull *)

Lemma sum_coords_bound (pts : list CvPoint) :
  Forall pixel pts ->
  0 <= Spec.sum (pt_x <$> pts) <= 32767 * Z.of_nat (length pts)
  /\ 0 <= Spec.sum (pt_y <$> pts) <= 32767 * Z.of_nat (length pts).
Proof.
  induction 1 as [|p pts [Hx Hy] _ IH]; cbn [fmap list_fmap Spec.sum foldr length].
  - lia.
  - fold (Spec.sum (pt_x <$> pts)). fold (Spec.sum (pt_y <$> pts)).
    rewrite Nat2Z.inj_succ. lia.
Qed.

(** Without overflow the first loop adds up the depth points it visits,
    those below index [NUM_DEFECTS]. *)
Lemma sum_depth_points_exact arr : forall i x y buf,
  Forall pixel (depth_point <$> arr) ->
  0 <= i -> 0 <= x <= 32767 * i -> 0 <= y <= 32767 * i ->
  let visited := take (Z.to_nat (NUM_DEFECTS - i)) (depth_point <$> arr) in
  let r := sum_depth_points arr i x y buf in
  r.1.1 = x + Spec.sum (pt_x <$> visited)
  /\ r.1.2 = y + Spec.sum (pt_y <$> visited).
Proof.
  induction arr as [|d arr IH]; intros i x y buf Hpix Hi Hx Hy; cbn zeta.
  - rewrite fmap_nil, take_nil. cbn. lia.
  - rewrite fmap_cons in Hpix. apply Forall_cons in Hpix as [[Hdx Hdy] Hpix].
    cbn [sum_depth_points]. unfold NUM_DEFECTS in *.
    destruct (Z.ltb_spec i 8) as [Hlt|Hge].
    + replace (Z.to_nat (8 - i)) with (S (Z.to_nat (8 - (i + 1)))) by lia.
      rewrite fmap_cons. cbn [take fmap list_fmap Spec.sum foldr].
      unfold CInt.add. rewrite !wrap_id by in_int.
      specialize (IH (i + 1) (x + pt_x (depth_point d))
                     (y + pt_y (depth_point d))
                     (<[Z.to_nat i := cvPoint (pt_x (depth_point d))
                                              (pt_y (depth_point d))]> buf)
                     Hpix ltac:(lia) ltac:(lia) ltac:(lia)).
      cbn zeta in IH. destruct IH as [IHx IHy]. rewrite IHx, IHy.
      unfold Spec.sum. cbn [fmap]. lia.
    + replace (Z.to_nat (8 - i)) with O by lia. cbn. lia.
Qed.

(** Without overflow the second loop adds up the truncated distances of
    all depth points to [(x, y)]. *)
Lemma sum_distances_exact arr : forall x y dist,
  Forall pixel (depth_point <$> arr) ->
  0 <= x < 32768 -> 0 <= y < 32768 ->
  0 <= dist -> dist + 46340 * Z.of_nat (length arr) <= CInt.int_max ->
  sum_distances arr x y dist
  = dist + Spec.sum ((fun p => Z.sqrt (Spec.squaredDistance (cvPoint x y) p))
                       <$> (depth_point <$> arr))
  /\ dist <= sum_distances arr x y dist
          <= dist + 46340 * Z.of_nat (length arr).
Proof.
  induction arr as [|d arr IH]; intros x y dist Hpix Hx Hy Hd Hmax.
  - cbn. lia.
  - rewrite fmap_cons in Hpix. apply Forall_cons in Hpix as [Hp Hpix].
    cbn [length] in *. rewrite Nat2Z.inj_succ in *.
    cbn [sum_distances]. rewrite !fmap_cons. cbn [Spec.sum foldr].
    destruct (sq_dist_exact x y (depth_point d) Hx Hy Hp) as [Heq Hrange].
    pose proof (sqrt_int_bound _ Hrange) as Hsq.
    unfold CInt.add_sqrt. rewrite wrap_id by in_int.
    destruct (IH x y (dist + Z.sqrt (sq_dist x y (depth_point d)))
                 Hpix Hx Hy ltac:(lia) ltac:(lia)) as [IHeq IHb].
    rewrite IHeq in *. rewrite <- Heq. unfold Spec.sum in *. lia.
Qed.

(** ** The defect aggregator *)

Section Aggregator.

Context {Pixels Mask : Type}.
Implicit Types (c : ctx Pixels Mask) (arr : list CvConvexityDefect).

(** What the guarded block stores for a sequence with [total > 0]. *)
Lemma aggregate_defects_fields c arr :
  arr <> [] ->
  let r := sum_depth_points arr 0 0 0 (defects c) in
  let total := Z.of_nat (length arr) in
  let x := CInt.div r.1.1 total in
  let y := CInt.div r.1.2 total in
  let c' := aggregate_defects (Some arr) c in
  hand_center c' = cvPoint x y
  /\ hand_radius c' = CInt.div (sum_distances arr x y 0) total
  /\ num_defects c' = total
  /\ defects c' = r.2.
Proof.
  intros Hne. cbn zeta. unfold aggregate_defects.
  destruct (Z.eqb_spec (Z.of_nat (length arr)) 0) as [H0|_].
  - destruct arr; [done | cbn in H0; lia].
  - destruct (sum_depth_points arr 0 0 0 (defects c)) as [[x y] buf]. done.
Qed.

(** The centre that is stored lies in the image. *)
Lemma hand_center_pixel c arr :
  arr <> [] -> Forall pixel (depth_point <$> arr) ->
  pixel (hand_center (aggregate_defects (Some arr) c)).
Proof.
  intros Hne Hpix.
  destruct (aggregate_defects_fields c arr Hne) as (-> & _).
  destruct (sum_depth_points_exact arr 0 0 0 (defects c) Hpix)
    as [Hx Hy]; [lia..|]. cbn zeta in Hx, Hy. rewrite Hx, Hy.
  set (visited := take _ _).
  assert (Hvis : Forall pixel visited) by by apply Forall_take.
  assert (Hlen : (length visited <= length arr)%nat).
  { unfold visited. rewrite length_take, length_fmap. lia. }
  assert (Hpos : 0 < Z.of_nat (length arr)) by (destruct arr; [done | cbn; lia]).
  destruct (sum_coords_bound visited Hvis) as [Bx By].
  assert (Hq : forall s, 0 <= s <= 32767 * Z.of_nat (length visited) ->
               0 <= s ÷ Z.of_nat (length arr) < 32768).
  { intros s Hs. split; [apply Z.quot_pos; lia|].
    apply Z.quot_lt_upper_bound; nia. }
  pose proof (Hq _ Bx). pose proof (Hq _ By).
  unfold pixel, CInt.div. cbn [pt_x pt_y].
  rewrite !Z.add_0_l, !wrap_id by in_int. lia.
Qed.

(** Up to [NUM_DEFECTS] defects the centre is the truncated mean of the
    depth points. *)
Lemma hand_center_mean_within_cap c arr :
  arr <> [] -> Forall pixel (depth_point <$> arr) ->
  Z.of_nat (length arr) <= NUM_DEFECTS ->
  hand_center (aggregate_defects (Some arr) c)
  = Spec.center (depth_point <$> arr).
Proof.
  intros Hne Hpix Hcap.
  pose proof (hand_center_pixel c arr Hne Hpix) as Hc.
  destruct (aggregate_defects_fields c arr Hne) as (Heq & _).
  rewrite Heq in *. clear Heq.
  destruct (sum_depth_points_exact arr 0 0 0 (defects c) Hpix)
    as [Hx Hy]; [lia..|]. cbn zeta in Hx, Hy. rewrite Hx, Hy in *.
  rewrite take_ge in * by (rewrite length_fmap; unfold NUM_DEFECTS in *; lia).
  unfold Spec.center, Spec.mean. rewrite !length_fmap, !Z.add_0_l in *.
  destruct Hc as [Hcx Hcy]. cbn [pt_x pt_y] in *.
  unfold CInt.div in *.
  destruct (sum_coords_bound _ Hpix) as [Bx By]. rewrite length_fmap in Bx, By.
  assert (Hpos : 0 < Z.of_nat (length arr)) by (destruct arr; [done | cbn; lia]).
  assert (Hq : forall s, 0 <= s <= 32767 * Z.of_nat (length arr) ->
               0 <= s ÷ Z.of_nat (length arr) < 32768).
  { intros s Hs. split; [apply Z.quot_pos; lia|].
    apply Z.quot_lt_upper_bound; nia. }
  pose proof (Hq _ Bx). pose proof (Hq _ By).
  by rewrite !wrap_id by in_int.
Qed.

End Aggregator.

(** ** The fingertip scan *)

Section Scan.

Context {Pixels Mask : Type}.
Implicit Types (c : ctx Pixels Mask) (r : regs) (s : ctx Pixels Mask * regs)
         (points : list CvPoint).

Lemma scan_contour_app l1 l2 s :
  scan_contour (l1 ++ l2) s
  = match scan_contour l1 s with
    | Break s' => Break s'
    | Next s' => scan_contour l2 s'
    end.
Proof.
  revert s. induction l1 as [|p l1 IH]; intros s; [done|].
  cbn [app scan_contour]. destruct (scan_point p s); [apply IH | done].
Qed.

(** The first pass never accepts: [dist1] and [dist2] are both 0. *)
Lemma is_finger_first c uninit dist :
  is_finger c (mkRegs 0 0 uninit) dist = false.
Proof.
  unfold is_finger. cbn [dist1 dist2].
  replace (0 >? 0) with false by done.
  by rewrite andb_false_r.
Qed.

(** What the test of lines 256-257 decides. *)
Lemma is_finger_spec c r dist :
  0 <= height (image c) <= CInt.int_max ->
  is_finger c r dist = true
  <-> dist < dist1 r /\ dist1 r > dist2 r
      /\ pt_x (max_point r) <> 0
      /\ pt_y (max_point r) < height (image c) - 10.
Proof.
  intros Hh. unfold is_finger, CInt.sub. rewrite wrap_id by in_int.
  rewrite !andb_true_iff, negb_true_iff, Z.eqb_neq, !Z.ltb_lt, Z.gtb_gt.
  tauto.
Qed.

(** A pass that goes on has rolled the registers forward. *)
Lemma scan_point_regs p c r s' :
  scan_point p (c, r) = Next s' ->
  s'.2 = mkRegs (sq_dist (pt_x (hand_center c)) (pt_y (hand_center c)) p)
                (dist1 r) p.
Proof.
  unfold scan_point. destruct (is_finger _ _ _).
  - destruct (_ >=? _); [done|]. by intros [= <-].
  - by intros [= <-].
Qed.

(** A pass touches [fingers] and [num_fingers] only, and keeps the size
    of the buffer. *)
Lemma scan_point_frame p c r :
  let c' := (flow_state (scan_point p (c, r))).1 in
  image c' = image c /\ thr_image c' = thr_image c
  /\ contour c' = contour c /\ hull c' = hull c
  /\ hand_center c' = hand_center c /\ defects c' = defects c
  /\ hand_radius c' = hand_radius c /\ num_defects c' = num_defects c
  /\ length (fingers c') = length (fingers c).
Proof.
  cbn zeta. unfold scan_point. destruct (is_finger _ _ _); [|done].
  destruct (_ >=? _); cbn; by rewrite length_insert.
Qed.

(** Below the cap, a pass that goes on stays below it and a pass that
    breaks has just reached it. *)
Lemma scan_point_count p c r :
  0 <= num_fingers c < NUM_FINGERS + 1 ->
  match scan_point p (c, r) with
  | Next s' => num_fingers c <= num_fingers s'.1 < NUM_FINGERS + 1
  | Break s' => num_fingers s'.1 = NUM_FINGERS + 1
  end.
Proof.
  intros Hc. unfold scan_point, NUM_FINGERS in *.
  destruct (is_finger _ _ _); [|cbn; lia].
  cbn [num_fingers set_num_fingers set_fingers].
  unfold CInt.add. rewrite !wrap_id by in_int.
  destruct (Z.geb_spec (num_fingers c + 1) (5 + 1)); cbn; lia.
Qed.

(** The same for a stretch of the contour. *)
Lemma scan_contour_count points : forall s,
  0 <= num_fingers s.1 < NUM_FINGERS + 1 ->
  match scan_contour points s with
  | Next s' => num_fingers s.1 <= num_fingers s'.1 < NUM_FINGERS + 1
  | Break s' => num_fingers s'.1 = NUM_FINGERS + 1
  end.
Proof.
  induction points as [|p points IH]; intros [c r] Hc; [cbn in *; lia|].
  cbn [scan_contour fst] in *.
  pose proof (scan_point_count p c r Hc) as Hp.
  destruct (scan_point p (c, r)) as [s'|s']; [|done].
  specialize (IH s' ltac:(lia)).
  destruct (scan_contour points s'); cbn in *; lia.
Qed.

Lemma scan_contour_frame points : forall s,
  let c' := (flow_state (scan_contour points s)).1 in
  image c' = image s.1 /\ hand_center c' = hand_center s.1
  /\ length (fingers c') = length (fingers s.1).
Proof.
  induction points as [|p points IH]; intros [c r]; [done|].
  cbn zeta. cbn [scan_contour].
  pose proof (scan_point_frame p c r) as Hp. cbn zeta in Hp.
  destruct Hp as (Him & _ & _ & _ & Hc & _ & _ & _ & Hlen).
  destruct (scan_point p (c, r)) as [s'|s']; cbn [flow_state] in *.
  - specialize (IH s'). cbn zeta in IH.
    by destruct IH as (-> & -> & ->).
  - done.
Qed.

(** On arrival at index [i] the registers hold the distances of the two
    points before [i] and the point just before [i]. *)
Lemma reaches_regs uninit c points : forall i s,
  (i <= length points)%nat ->
  reaches uninit c points i s ->
  s.2 = mkRegs (prev_dist c points i) (prev2_dist c points i)
               (prev_point uninit points i)
  /\ image s.1 = image c /\ hand_center s.1 = hand_center c
  /\ length (fingers s.1) = length (fingers c)
  /\ 0 <= num_fingers s.1 < NUM_FINGERS + 1.
Proof.
  unfold reaches. induction i as [|i IH]; intros s Hi Hs.
  - rewrite take_0 in Hs. cbn in Hs. injection Hs as <-.
    cbn. unfold NUM_FINGERS. repeat split; lia.
  - destruct (lookup_lt_is_Some_2 points i ltac:(lia)) as [q Hq].
    rewrite (take_S_r _ _ _ Hq), scan_contour_app in Hs.
    destruct (scan_contour (take i points) (scan_start uninit c))
      as [[c1 r1]|] eqn:Hpre; [|done].
    destruct (IH _ ltac:(lia) eq_refl) as (Hr & Him & Hc & Hlen & Hn).
    cbn [fst snd] in *. cbn [scan_contour] in Hs.
    pose proof (scan_point_regs q c1 r1) as Hregs.
    pose proof (scan_point_frame q c1 r1) as Hfr. cbn zeta in Hfr.
    pose proof (scan_point_count q c1 r1 Hn) as Hcnt.
    destruct (scan_point q (c1, r1)) as [s1|]; [|done].
    injection Hs as <-. cbn [flow_state] in Hfr.
    rewrite (Hregs _ eq_refl), Hc, Hr. cbn [dist1].
    destruct Hfr as (-> & _ & _ & _ & -> & _ & _ & _ & ->).
    split; [|split_and!; try done; lia].
    unfold prev_dist, prev2_dist, prev_point, dist_at. rewrite Hq.
    by destruct i.
Qed.

End Scan.

(** ** Properties of the defect aggregator *)

(** C1. Evaluation on nine defects that all have the depth point (9,9):
    the first loop adds only the first [NUM_DEFECTS] = 8 depth points,
    line 203 divides that sum by the total of 9, and the centre stored is
    (8,8), not the mean (9,9) of the nine depth points. *)
Theorem center_of_nine_defects :
  hand_center (aggregate_defects (Some Demo.nine_defects) Demo.start)
  = cvPoint 8 8
  /\ Spec.center (depth_point <$> Demo.nine_defects) = cvPoint 9 9.
Proof. split; by vm_compute. Qed.

(** C2. Evaluation of one pass of the loop of [main] on a frame whose
    contour has nine convexity defects: line 206 stores the total, so
    [num_defects] is 9 and exceeds [NUM_DEFECTS] = 8, the number of slots
    of the buffer [defects]. *)
Theorem num_defects_above_cap :
  let c := (Demo.iteration Demo.peak_contour Demo.nine_defects
              Demo.hand_frame Demo.start).1 in
  num_defects c = 9
  /\ NUM_DEFECTS < num_defects c
  /\ length (defects c) = Z.to_nat NUM_DEFECTS.
Proof. by vm_compute. Qed.

Section AggregatorClaims.

Context {Pixels Mask : Type}.
Implicit Types (c : ctx Pixels Mask) (arr : list CvConvexityDefect).

(** C5. For a non-empty sequence of defects whose depth points are pixels
    of an image (fewer than 32768 of them, so that no [int] overflows),
    the radius stored is the truncated mean, over all defects, of the
    truncated square root of the squared distance from the stored centre
    to the depth point; the depth points (0,0), (10,0), (0,10), (10,10)
    give the centre (5,5) and the radius 7. *)
Theorem hand_radius_mean_distance :
  (forall c arr,
      arr <> [] ->
      Forall pixel (depth_point <$> arr) ->
      Z.of_nat (length arr) < 32768 ->
      hand_radius (aggregate_defects (Some arr) c)
      = Spec.radius (hand_center (aggregate_defects (Some arr) c))
                    (depth_point <$> arr))
  /\ (forall c,
         hand_center (aggregate_defects (Some Demo.square_defects) c)
         = cvPoint 5 5
         /\ hand_radius (aggregate_defects (Some Demo.square_defects) c)
            = 7).
Proof.
  split.
  - intros c arr Hne Hpix Hlen.
    pose proof (hand_center_pixel c arr Hne Hpix) as Hc.
    destruct (aggregate_defects_fields c arr Hne) as (Hcen & -> & _).
    rewrite Hcen in *. destruct Hc as [Hx Hy]. cbn [pt_x pt_y] in Hx, Hy.
    destruct (sum_distances_exact arr _ _ 0 Hpix Hx Hy) as [Heq Hb];
      [lia | in_int |].
    rewrite Heq in *. rewrite Z.add_0_l in *.
    unfold Spec.radius, Spec.mean. rewrite !length_fmap.
    assert (Hpos : 0 < Z.of_nat (length arr))
      by (destruct arr; [done | cbn; lia]).
    set (total := Z.of_nat (length arr)) in *.
    set (dist := Spec.sum _) in *.
    assert (0 <= dist ÷ total <= 46340).
    { split; [apply Z.quot_pos; lia|].
      apply Z.quot_le_upper_bound; lia. }
    unfold CInt.div. by rewrite wrap_id by in_int.
  - intros c.
    destruct (aggregate_defects_fields c Demo.square_defects) as (-> & -> & _);
      [done|]. by vm_compute.
Qed.

(** C7. When [cvConvexityDefects] returns an empty sequence (or none) for
    the contour and its hull, [find_convex_hull] leaves the hand centre,
    the hand radius, [num_defects] and the defect points as they were. *)
Theorem empty_defects_keep_hand
        (cvConvexHull2 : list CvPoint -> option (list CvPoint))
        (cvConvexityDefects :
           list CvPoint -> list CvPoint -> option (list CvConvexityDefect))
        c :
  (forall points h,
      contour c = Some points -> cvConvexHull2 points = Some h ->
      cvConvexityDefects points h = Some []
      \/ cvConvexityDefects points h = None) ->
  let c' := find_convex_hull cvConvexHull2 cvConvexityDefects c in
  hand_center c' = hand_center c
  /\ hand_radius c' = hand_radius c
  /\ num_defects c' = num_defects c
  /\ defects c' = defects c.
Proof.
  intros Hempty. cbn zeta. unfold find_convex_hull.
  cbn [contour set_hull hull].
  destruct (contour c) as [points|] eqn:Hc; [|done].
  destruct (cvConvexHull2 points) as [h|] eqn:Hh; [|done].
  by destruct (Hempty points h eq_refl Hh) as [-> | ->].
Qed.

End AggregatorClaims.

Lemma hand_radius_mean_distance_witness :
  hand_radius (aggregate_defects (Some Demo.nine_defects) Demo.start)
  = Spec.radius
      (hand_center (aggregate_defects (Some Demo.nine_defects) Demo.start))
      (depth_point <$> Demo.nine_defects).
Proof.
  apply (proj1 hand_radius_mean_distance).
  - done.
  - repeat constructor; cbn; lia.
  - cbn; lia.
Defined.

Lemma empty_defects_keep_hand_witness :
  let c := set_contour (Some Demo.peak_contour)
             (aggregate_defects (Some Demo.square_defects) Demo.start) in
  let c' := find_convex_hull Demo.cvConvexHull2 (Demo.cvConvexityDefects [])
              c in
  hand_center c' = cvPoint 5 5
  /\ hand_radius c' = 7
  /\ num_defects c' = 4
  /\ defects c' = defects c.
Proof.
  apply (empty_defects_keep_hand Demo.cvConvexHull2
           (Demo.cvConvexityDefects [])).
  intros points h _ _. by left.
Defined.

(** ** Properties of the fingertip scan *)

Section ScanClaims.

Context {Pixels Mask : Type}.
Implicit Types (c : ctx Pixels Mask) (r : regs) (s : ctx Pixels Mask * regs)
         (points : list CvPoint).

(** The pass at index [i], once the loop has arrived there. *)
Lemma pass_at_index uninit c points i p s :
  points !! i = Some p ->
  reaches uninit c points i s ->
  s.2 = mkRegs (prev_dist c points i) (prev2_dist c points i)
               (prev_point uninit points i)
  /\ image s.1 = image c
  /\ length (fingers s.1) = length (fingers c)
  /\ 0 <= num_fingers s.1 < NUM_FINGERS + 1
  /\ if is_finger s.1 s.2 (dist_at c points i)
     then appends p s (max_point s.2)
     else skips p s.
Proof.
  intros Hp Hs.
  destruct (reaches_regs uninit c points i s) as (Hr & Him & Hc & Hlen & Hn);
    [by apply Nat.lt_le_incl, (lookup_lt_Some _ _ _ Hp) | done |].
  do 4 (split; [done|]).
  destruct s as [c1 r1]. cbn [fst snd] in *.
  unfold appends, skips, scan_point, dist_at. rewrite Hp, Hc.
  cbn [fst snd]. destruct (is_finger _ _ _); [|done].
  unfold CInt.add, NUM_FINGERS in *.
  cbn [num_fingers fingers set_num_fingers set_fingers].
  rewrite !(wrap_id (_ + 1)) by in_int.
  by destruct (_ >=? _).
Qed.

(** C4. At every contour index that the scan arrives at, the registers
    hold the distances of the two preceding points and the preceding
    point, and a candidate is appended exactly when
    [dist_now < dist_prev], [dist_prev > dist_prev2], the x-coordinate of
    the candidate point is not 0 and its y-coordinate is below the frame
    height minus 10; otherwise the fingers are left as they are. *)
Theorem finger_appended_iff uninit c points i p s :
  0 <= height (image c) <= CInt.int_max ->
  points !! i = Some p ->
  reaches uninit c points i s ->
  s.2 = mkRegs (prev_dist c points i) (prev2_dist c points i)
               (prev_point uninit points i)
  /\ ((dist_at c points i < dist1 s.2
       /\ dist1 s.2 > dist2 s.2
       /\ pt_x (max_point s.2) <> 0
       /\ pt_y (max_point s.2) < height (image c) - 10)
      <-> appends p s (max_point s.2))
  /\ (~ appends p s (max_point s.2) -> skips p s).
Proof.
  intros Hh Hp Hs.
  destruct (pass_at_index uninit c points i p s Hp Hs)
    as (Hr & Him & _ & _ & Hpass).
  split; [done|]. rewrite <- Him in Hh |- *.
  rewrite <- (is_finger_spec s.1 s.2 (dist_at c points i) Hh).
  destruct (is_finger _ _ _); [by split|].
  assert (~ appends p s (max_point s.2))
    by (destruct Hpass as [Hn _]; unfold appends; cbn zeta; lia).
  split; [by split|done].
Qed.

(** C8. Whenever the pass at a contour index appends a point, the index
    is at least 1 and the point stored in the next free slot of
    [fingers] is the contour point one index back, the one whose
    distance [dist_prev] is the peak. *)
Theorem appended_point_one_step_behind uninit c points i p s :
  length (fingers c) = Z.to_nat (NUM_FINGERS + 1) ->
  points !! i = Some p ->
  reaches uninit c points i s ->
  num_fingers (flow_state (scan_point p s)).1 = num_fingers s.1 + 1 ->
  exists j q, i = S j /\ points !! j = Some q
    /\ fingers (flow_state (scan_point p s)).1
         !! Z.to_nat (num_fingers s.1) = Some q.
Proof.
  intros Hbuf Hp Hs Hgrow.
  destruct (pass_at_index uninit c points i p s Hp Hs)
    as (Hr & _ & Hlen & Hn & Hpass).
  destruct (is_finger _ _ _) eqn:Hacc;
    [|destruct Hpass as [Hsame _]; cbn zeta in Hsame; lia].
  destruct i as [|j].
  { rewrite Hr in Hacc. cbn in Hacc. by rewrite is_finger_first in Hacc. }
  destruct (lookup_lt_is_Some_2 points j) as [q Hq];
    [apply Nat.lt_le_incl, (lookup_lt_Some _ _ _ Hp)|].
  exists j, q. split_and!; [done..|].
  destruct Hpass as [_ ->]. rewrite Hr. cbn [max_point prev_point].
  rewrite Hq. apply list_lookup_insert_eq.
  rewrite Hlen, Hbuf. unfold NUM_FINGERS in *. lia.
Qed.

End ScanClaims.

Lemma finger_appended_iff_witness :
  let c := Demo.centered in
  let points := Demo.peak_contour in
  let s := (set_num_fingers 0 c, mkRegs 2025 1600 (cvPoint 5 50)) in
  s.2 = mkRegs (prev_dist c points 2) (prev2_dist c points 2)
               (prev_point (cvPoint 0 0) points 2)
  /\ ((dist_at c points 2 < dist1 s.2
       /\ dist1 s.2 > dist2 s.2
       /\ pt_x (max_point s.2) <> 0
       /\ pt_y (max_point s.2) < height (image c) - 10)
      <-> appends (cvPoint 10 50) s (max_point s.2))
  /\ (~ appends (cvPoint 10 50) s (max_point s.2)
      -> skips (cvPoint 10 50) s).
Proof.
  apply (finger_appended_iff (cvPoint 0 0) Demo.centered Demo.peak_contour 2
           (cvPoint 10 50)).
  - cbn. in_int.
  - reflexivity.
  - reflexivity.
Defined.

(** C4, as stated with the test against the origin: on the contour
    (10,50), (0,50), (10,50) around the centre (50,50) the pass at index 2
    sees a peak at the candidate point (0,50), which is not the origin and
    lies above the bottom margin, and appends nothing. *)
Lemma origin_test_rule_fails : ~ origin_test_rule.
Proof.
  intros Hrule.
  destruct (Hrule bool bool Demo.centered (cvPoint 0 0)
              Demo.left_edge_contour 2%nat (cvPoint 10 50)
              (set_num_fingers 0 Demo.centered,
               mkRegs 2500 1600 (cvPoint 0 50)))
    as [Hfwd _].
  - cbn. in_int.
  - reflexivity.
  - reflexivity.
  - destruct Hfwd as [Hgrow _]; [|by vm_compute in Hgrow].
    split_and!; by vm_compute.
Qed.

Lemma appended_point_one_step_behind_witness :
  let s := (set_num_fingers 0 Demo.centered,
            mkRegs 2025 1600 (cvPoint 5 50)) in
  exists j q, 2%nat = S j /\ Demo.peak_contour !! j = Some q
    /\ fingers (flow_state (scan_point (cvPoint 10 50) s)).1
         !! Z.to_nat (num_fingers s.1) = Some q.
Proof.
  apply (appended_point_one_step_behind (cvPoint 0 0) Demo.centered
           Demo.peak_contour 2 (cvPoint 10 50)); reflexivity.
Defined.

(** C8, as stated with the point two indices back: on the contour
    (10,50), (5,50), (10,50) around the centre (50,50) the pass at index 2
    appends (5,50), the point at index 1, and not (10,50), the point at
    index 0. *)
Lemma two_steps_behind_rule_fails : ~ two_steps_behind_rule.
Proof.
  intros Hrule.
  destruct (Hrule bool bool Demo.centered (cvPoint 0 0)
              Demo.peak_contour 2%nat (cvPoint 10 50)
              (set_num_fingers 0 Demo.centered,
               mkRegs 2025 1600 (cvPoint 5 50)))
    as (j & q & Hj & Hq & Hslot); [reflexivity..|].
  injection Hj as <-. vm_compute in Hq, Hslot. congruence.
Qed.

Section CapClaims.

Context {Pixels Mask : Type}.
Implicit Types (c : ctx Pixels Mask) (r : regs) (s : ctx Pixels Mask * regs)
         (points : list CvPoint).

(** The scan does not look at the [contour] field. *)
Lemma scan_point_set_contour v p c r :
  scan_point p (set_contour v c, r)
  = match scan_point p (c, r) with
    | Next s => Next (set_contour v s.1, s.2)
    | Break s => Break (set_contour v s.1, s.2)
    end.
Proof.
  unfold scan_point, is_finger. cbn [set_contour image hand_center].
  destruct (_ && _); [|done].
  cbn [num_fingers set_num_fingers set_fingers set_contour fingers].
  by destruct (_ >=? _).
Qed.

Lemma scan_contour_set_contour v points : forall c r,
  scan_contour points (set_contour v c, r)
  = match scan_contour points (c, r) with
    | Next s => Next (set_contour v s.1, s.2)
    | Break s => Break (set_contour v s.1, s.2)
    end.
Proof.
  induction points as [|p points IH]; intros c r; [done|].
  cbn [scan_contour]. rewrite scan_point_set_contour.
  destruct (scan_point p (c, r)) as [[c1 r1]|]; [|done].
  apply IH.
Qed.

Lemma find_fingers_unfold uninit c :
  find_fingers uninit c
  = match contour c, hull c with
    | Some points, Some _ =>
        (flow_state (scan_contour points (scan_start uninit c))).1
    | _, _ => set_num_fingers 0 c
    end.
Proof. done. Qed.

Lemma scan_from_start_count uninit c points :
  match scan_contour points (scan_start uninit c) with
  | Next s' => 0 <= num_fingers s'.1 < NUM_FINGERS + 1
  | Break s' => num_fingers s'.1 = NUM_FINGERS + 1
  end.
Proof.
  pose proof (scan_contour_count points (scan_start uninit c)) as Hcnt.
  cbn [scan_start fst num_fingers set_num_fingers] in Hcnt.
  specialize (Hcnt ltac:(unfold NUM_FINGERS; lia)).
  by destruct (scan_contour _ _).
Qed.

Lemma find_fingers_count uninit c :
  0 <= num_fingers (find_fingers uninit c) <= NUM_FINGERS + 1.
Proof.
  rewrite find_fingers_unfold.
  destruct (contour c) as [points|]; [|by cbn].
  destruct (hull c); [|by cbn].
  pose proof (scan_from_start_count uninit c points) as Hcnt.
  destruct (scan_contour _ _); cbn [flow_state];
    unfold NUM_FINGERS in *; lia.
Qed.

(** C6. [find_fingers] leaves at most [NUM_FINGERS + 1] = 6 fingers.  The
    pass that stores the sixth finger breaks out of the loop, so that the
    scan of the whole contour ends in the state of that pass and the points
    after it are not examined; and when the scan of a contour has collected
    6, the result is the same with any further points after that
    contour. *)
Theorem finger_cap_stops_scan :
  (forall uninit c,
      0 <= num_fingers (find_fingers uninit c) <= NUM_FINGERS + 1)
  /\ (forall uninit c points i p s,
         points !! i = Some p ->
         reaches uninit c points i s ->
         num_fingers (flow_state (scan_point p s)).1 = NUM_FINGERS + 1 ->
         scan_contour points (scan_start uninit c)
         = Break (flow_state (scan_point p s)))
  /\ (forall uninit c pre rest,
         contour c = Some pre ->
         num_fingers (find_fingers uninit c) = NUM_FINGERS + 1 ->
         (exists s, scan_contour pre (scan_start uninit c) = Break s)
         /\ find_fingers uninit (set_contour (Some (pre ++ rest)) c)
            = set_contour (Some (pre ++ rest)) (find_fingers uninit c)).
Proof.
  split; [apply find_fingers_count|]. split.
  - intros uninit c points i p [c1 r1] Hp Hs Hsix.
    destruct (reaches_regs uninit c points i (c1, r1)) as (_ & _ & _ & _ & Hn);
      [by apply Nat.lt_le_incl, (lookup_lt_Some _ _ _ Hp) | done |].
    pose proof (scan_point_count p c1 r1 Hn) as Hcnt.
    rewrite <- (take_drop_middle points i p Hp), scan_contour_app.
    unfold reaches in Hs. rewrite Hs. cbn [scan_contour].
    destruct (scan_point p (c1, r1)) as [s'|s']; [|done].
    cbn [flow_state] in Hsix. lia.
  - intros uninit c pre rest Hpre. rewrite !find_fingers_unfold.
    cbn [contour hull set_contour]. rewrite Hpre.
    destruct (hull c) eqn:Hhull; [|by cbn].
    change (scan_start uninit (set_contour (Some (pre ++ rest)) c))
      with (set_contour (Some (pre ++ rest)) (set_num_fingers 0 c),
            mkRegs 0 0 uninit).
    rewrite scan_contour_set_contour. fold (scan_start uninit c).
    rewrite scan_contour_app.
    pose proof (scan_from_start_count uninit c pre) as Hcnt.
    destruct (scan_contour pre _) as [s|s]; cbn [flow_state fst].
    + lia.
    + intros _. split; [by eexists|done].
Qed.

(** C10. The first pass of the scan appends nothing and overwrites the
    candidate-point register with the first contour point, whatever that
    register held, since [dist1 > dist2] is [0 > 0] there; so the result
    of [find_fingers] is the same for any two initial values of the
    register. *)
Theorem uninit_never_read :
  (forall c uninit p,
      scan_point p (scan_start uninit c)
      = Next (set_num_fingers 0 c,
              mkRegs (sq_dist (pt_x (hand_center c)) (pt_y (hand_center c)) p)
                     0 p))
  /\ (forall c u1 u2, find_fingers u1 c = find_fingers u2 c).
Proof.
  assert (Hfirst : forall c uninit p,
    scan_point p (scan_start uninit c)
    = Next (set_num_fingers 0 c,
            mkRegs (sq_dist (pt_x (hand_center c)) (pt_y (hand_center c)) p)
                   0 p)).
  { intros c uninit p. unfold scan_start, scan_point.
    by rewrite is_finger_first. }
  split; [done|].
  intros c u1 u2. rewrite !find_fingers_unfold.
  destruct (contour c) as [[|p points]|]; [by destruct (hull c)| |done].
  destruct (hull c); [|done].
  cbn [scan_contour]. by rewrite !Hfirst.
Qed.

End CapClaims.

Lemma finger_cap_stops_scan_witness :
  scan_contour Demo.comb_contour (scan_start (cvPoint 0 0) Demo.combed)
  = Break (flow_state (scan_point (cvPoint 10 50) Demo.five_found))
  /\ (exists s, scan_contour Demo.comb_head
                  (scan_start (cvPoint 0 0) Demo.combed) = Break s)
  /\ find_fingers (cvPoint 0 0)
       (set_contour (Some (Demo.comb_head ++ Demo.comb_tail)) Demo.combed)
     = set_contour (Some (Demo.comb_head ++ Demo.comb_tail))
         (find_fingers (cvPoint 0 0) Demo.combed).
Proof.
  split.
  - apply (proj1 (proj2 finger_cap_stops_scan) (cvPoint 0 0) Demo.combed
             Demo.comb_contour 12%nat (cvPoint 10 50) Demo.five_found);
      by vm_compute.
  - apply (proj2 (proj2 finger_cap_stops_scan) (cvPoint 0 0) Demo.combed
             Demo.comb_head Demo.comb_tail); by vm_compute.
Defined.

(** ** Frames without a contour *)

Section NoContour.

Context {Pixels Mask : Type}.
Implicit Types (c : ctx Pixels Mask).

(** When the selection loop ends with no contour, [find_contour] stores
    nothing: the context, and with it the contour of an earlier frame,
    stays as it was. *)
Lemma find_contour_none cvFindContours cvContourArea cvApproxPoly c :
  select_largest cvContourArea (cvFindContours (thr_image c)) 0%Q None
  = None ->
  find_contour cvFindContours cvContourArea cvApproxPoly c = c.
Proof. intros Hnone. unfold find_contour. cbn zeta. by rewrite Hnone. Qed.

(** With a null stored contour the two detection steps only reset the
    hull and the number of fingers. *)
Lemma null_contour_skips_detection cvConvexHull2 cvConvexityDefects
      uninit c :
  contour c = None ->
  find_convex_hull cvConvexHull2 cvConvexityDefects c = set_hull None c
  /\ find_fingers uninit
       (find_convex_hull cvConvexHull2 cvConvexityDefects c)
     = set_num_fingers 0 (set_hull None c).
Proof.
  intros Hnull.
  assert (Hhull : find_convex_hull cvConvexHull2 cvConvexityDefects c
                  = set_hull None c).
  { unfold find_convex_hull. cbn [contour set_hull]. by rewrite Hnull. }
  rewrite Hhull, find_fingers_unfold. cbn [contour set_hull].
  by rewrite Hnull.
Qed.

End NoContour.

(** C3. Evaluation of two passes of the loop of [main]: a frame with the
    contour (10,50), (5,50), (10,50), then a frame in which
    [cvFindContours] finds nothing.  After [find_contour] on the second
    frame the stored contour is still that of the first frame, not null,
    and the pass goes on to compute a hull and to detect a finger on it. *)
Theorem stale_contour_after_empty_frame :
  let c1 := (Demo.iteration Demo.peak_contour [Demo.defect 50 50]
               Demo.hand_frame Demo.start).1 in
  let c2 := find_contour (Demo.cvFindContours Demo.peak_contour)
              Demo.cvContourArea Demo.cvApproxPoly
              (filter_and_threshold Demo.skin_filter
                 (set_image Demo.empty_frame c1)) in
  let c3 := (Demo.run Demo.peak_contour [Demo.defect 50 50]
               [Demo.hand_frame; Demo.empty_frame] Demo.start).1 in
  Demo.cvFindContours Demo.peak_contour (thr_image c2) = []
  /\ contour c2 = Some Demo.peak_contour
  /\ contour c3 = Some Demo.peak_contour
  /\ hull c3 = Some Demo.peak_contour
  /\ num_fingers c3 = 1.
Proof. by vm_compute. Qed.

(** ** The display gate *)

Section Display.

Context {Pixels Mask : Type}.
Implicit Types (c : ctx Pixels Mask) (img : IplImage Pixels).

Variable stray : Z -> CvPoint.

Lemma draw_fingers_overlay left : forall i c,
  exists more,
    draw_fingers stray left i c = set_image (overlay more (image c)) c.
Proof.
  induction left as [|left IH]; intros i c.
  - exists []. destruct c as [[] ?]. cbn. unfold overlay. cbn.
    by rewrite app_nil_r.
  - cbn [draw_fingers]. cbn zeta.
    edestruct IH as [more ->]. eexists (_ :: _ :: more).
    unfold set_image, overlay, draw. cbn. by rewrite <- !app_assoc.
Qed.

Lemma draw_defects_overlay left : forall i c,
  exists more,
    draw_defects stray left i c = set_image (overlay more (image c)) c.
Proof.
  induction left as [|left IH]; intros i c.
  - exists []. destruct c as [[] ?]. cbn. unfold overlay. cbn.
    by rewrite app_nil_r.
  - cbn [draw_defects]. cbn zeta.
    edestruct IH as [more ->]. eexists (_ :: more).
    unfold set_image, overlay, draw. cbn. by rewrite <- !app_assoc.
Qed.

(** The guarded block draws the two circles of the hand first, and
    changes nothing but the image. *)
Lemma draw_hand_overlay c :
  exists more,
    draw_hand stray c
    = set_image
        (overlay (Circle (hand_center c) 5 PURPLE 1
                  :: Circle (hand_center c) (hand_radius c) RED 1 :: more)
                 (image c)) c.
Proof.
  unfold draw_hand. cbn zeta.
  edestruct draw_fingers_overlay as [fs ->].
  edestruct draw_defects_overlay as [ds ->].
  exists (fs ++ ds). unfold set_image, overlay, draw. cbn.
  by rewrite <- !app_assoc.
Qed.

Lemma display_calls c :
  (display stray c).2
  = [cvShowImage_output (image (display stray c).1);
     cvShowImage_thresholded (thr_image (display stray c).1)].
Proof. done. Qed.

Lemma display_gate c :
  let c' := (display stray c).1 in
  num_fingers c' = num_fingers c /\ thr_image c' = thr_image c
  /\ hand_center c' = hand_center c /\ hand_radius c' = hand_radius c
  /\ (num_fingers c <> NUM_FINGERS -> c' = c)
  /\ (num_fingers c = NUM_FINGERS ->
      exists more,
        drawn (image c')
        = drawn (image c)
          ++ Circle (hand_center c) 5 PURPLE 1
             :: Circle (hand_center c) (hand_radius c) RED 1 :: more).
Proof.
  cbn zeta. unfold display. cbn [fst].
  destruct (Z.eqb_spec (num_fingers c) NUM_FINGERS) as [H5|H5].
  - destruct (draw_hand_overlay c) as [more ->].
    cbn. split_and!; try done. intros _. by exists more.
  - split_and!; done.
Qed.

End Display.

Section FrameClaims.

Context {Pixels Mask : Type}.
Implicit Types (c : ctx Pixels Mask) (frame : IplImage Pixels).

Variable skin_filter : Pixels -> Mask.
Variable cvFindContours : Mask -> list (list CvPoint).
Variable cvContourArea : list CvPoint -> Q.
Variable cvApproxPoly : list CvPoint -> option (list CvPoint).
Variable cvConvexHull2 : list CvPoint -> option (list CvPoint).
Variable cvConvexityDefects :
  list CvPoint -> list CvPoint -> option (list CvConvexityDefect).
Variable stray : Z -> CvPoint.

Lemma find_contour_images c :
  let c' := find_contour cvFindContours cvContourArea cvApproxPoly c in
  image c' = image c /\ thr_image c' = thr_image c.
Proof. cbn zeta. unfold find_contour. by destruct (select_largest _ _ _ _). Qed.

Lemma aggregate_defects_images found c :
  image (aggregate_defects found c) = image c
  /\ thr_image (aggregate_defects found c) = thr_image c.
Proof.
  unfold aggregate_defects. destruct found as [arr|]; [|done].
  destruct (_ =? _); [done|].
  by destruct (sum_depth_points _ _ _ _ _) as [[x y] buf].
Qed.

Lemma find_convex_hull_images c :
  let c' := find_convex_hull cvConvexHull2 cvConvexityDefects c in
  image c' = image c /\ thr_image c' = thr_image c.
Proof.
  cbn zeta. unfold find_convex_hull. cbn [contour set_hull hull].
  destruct (contour c) as [points|]; [|done].
  destruct (cvConvexHull2 points) as [h|]; [|done].
  exact (aggregate_defects_images _ (set_hull (Some h) c)).
Qed.

Lemma scan_contour_images points : forall s : ctx Pixels Mask * regs,
  let c' := (flow_state (scan_contour points s)).1 in
  image c' = image s.1 /\ thr_image c' = thr_image s.1.
Proof.
  induction points as [|p points IH]; intros [c r]; [done|].
  cbn zeta. cbn [scan_contour].
  destruct (scan_point_frame p c r) as (Him & Hthr & _).
  destruct (scan_point p (c, r)) as [s'|s']; cbn [flow_state fst] in *.
  - destruct (IH s') as [-> ->]. done.
  - done.
Qed.

Lemma find_fingers_images uninit c :
  image (find_fingers uninit c) = image c
  /\ thr_image (find_fingers uninit c) = thr_image c.
Proof.
  rewrite find_fingers_unfold.
  destruct (contour c) as [points|]; [|done]. destruct (hull c); [|done].
  exact (scan_contour_images points (scan_start uninit c)).
Qed.

(** Whatever the frame, a pass of the loop of [main] ends with
    [num_fingers] between 0 and [NUM_FINGERS + 1]. *)
Lemma num_fingers_bounded_in_frame uninit frame c :
  let r := frame_iteration skin_filter cvFindContours cvContourArea
             cvApproxPoly cvConvexHull2 cvConvexityDefects stray
             uninit frame c in
  0 <= num_fingers r.1 <= NUM_FINGERS + 1.
Proof.
  cbn zeta. unfold frame_iteration.
  set (c3 := find_convex_hull _ _ _).
  pose proof (find_fingers_count uninit c3) as Hcnt.
  destruct (display_gate stray (find_fingers uninit c3)) as (Hn & _).
  destruct (display stray _) as [c5 shown]. cbn [fst] in *. by rewrite Hn.
Qed.

(** C9. In every pass of the loop of [main] the frame is shown, the
    thresholded image is shown and the frame is written to the
    recording; the hand overlay is on the frame shown and written only if
    [num_fingers] is exactly 5 (then it starts with the centre circle
    and the radius circle), and for any other [num_fingers] that frame
    is the captured one with nothing drawn on it. *)
Theorem overlay_only_with_five_fingers uninit frame c :
  let r := frame_iteration skin_filter cvFindContours cvContourArea
             cvApproxPoly cvConvexHull2 cvConvexityDefects stray
             uninit frame c in
  r.2 = [cvShowImage_output (image r.1);
         cvShowImage_thresholded (skin_filter (pixels frame));
         cvWriteFrame (image r.1)]
  /\ (num_fingers r.1 <> NUM_FINGERS -> image r.1 = frame)
  /\ (drawn (image r.1) <> drawn frame -> num_fingers r.1 = NUM_FINGERS)
  /\ (num_fingers r.1 = NUM_FINGERS ->
      exists more,
        drawn (image r.1)
        = drawn frame
          ++ Circle (hand_center r.1) 5 PURPLE 1
             :: Circle (hand_center r.1) (hand_radius r.1) RED 1 :: more).
Proof.
  cbn zeta. unfold frame_iteration.
  set (c1 := filter_and_threshold skin_filter (set_image frame c)).
  set (c2 := find_contour cvFindContours cvContourArea cvApproxPoly c1).
  set (c3 := find_convex_hull cvConvexHull2 cvConvexityDefects c2).
  set (c4 := find_fingers uninit c3).
  assert (Him : image c4 = frame
                /\ thr_image c4 = skin_filter (pixels frame)).
  { destruct (find_fingers_images uninit c3) as [H4 H4'].
    destruct (find_convex_hull_images c2) as [H3 H3'].
    destruct (find_contour_images c1) as [H2 H2'].
    subst c4. rewrite H4, H4'. subst c3. rewrite H3, H3'.
    subst c2. by rewrite H2, H2'. }
  destruct Him as [Him Hthr].
  pose proof (display_calls stray c4) as Hcalls.
  destruct (display_gate stray c4) as (Hn & Ht & Hc & Hr & Hoff & Hon).
  destruct (display stray c4) as [c5 shown]. cbn [fst snd] in *.
  subst shown. rewrite Ht, Hthr, Hn, Hc, Hr. split; [done|].
  assert (Hraw : num_fingers c4 <> NUM_FINGERS -> image c5 = frame)
    by (intros Hne; by rewrite (Hoff Hne)).
  split; [done|]. split.
  - intros Hdrawn. destruct (decide (num_fingers c4 = NUM_FINGERS)); [done|].
    by rewrite Hraw in Hdrawn.
  - intros H5. destruct (Hon H5) as [more ->]. rewrite Him. by exists more.
Qed.

End FrameClaims.

Lemma overlay_only_with_five_fingers_witness :
  let r := Demo.iteration Demo.peak_contour [Demo.defect 50 50]
             Demo.hand_frame Demo.start in
  num_fingers r.1 = 1 /\ image r.1 = Demo.hand_frame.
Proof.
  split; [reflexivity|].
  apply (overlay_only_with_five_fingers Demo.skin_filter
           (Demo.cvFindContours Demo.peak_contour) Demo.cvContourArea
           Demo.cvApproxPoly Demo.cvConvexHull2
           (Demo.cvConvexityDefects [Demo.defect 50 50]) Demo.stray
           (cvPoint 0 0) Demo.hand_frame Demo.start).
  by vm_compute.
Defined.

(** ** The fingers that the scan stores *)

Section PeakList.

Context {Pixels Mask : Type}.
Implicit Types (c : ctx Pixels Mask) (r : regs) (s : ctx Pixels Mask * regs)
         (points buf pk : list CvPoint).

Lemma is_finger_image c1 c2 r dist :
  image c1 = image c2 -> is_finger c1 r dist = is_finger c2 r dist.
Proof. unfold is_finger. by intros ->. Qed.

(** Storing one more point just after the points stored so far. *)
Lemma insert_after_stored pk buf q :
  (length pk < length buf)%nat ->
  <[length pk := q]> (pk ++ drop (length pk) buf)
  = (pk ++ [q]) ++ drop (S (length pk)) buf.
Proof.
  intros Hlt. rewrite insert_app_r_alt, Nat.sub_diag by lia.
  destruct (lookup_lt_is_Some_2 buf (length pk) Hlt) as [x Hx].
  rewrite (drop_S _ _ _ Hx). cbn. by rewrite <- app_assoc.
Qed.

(** The state of the scan after the indices below [i]: the fingers stored
    are the peaks of those indices, as long as there are fewer than
    [NUM_FINGERS + 1]; once there are that many the loop has broken with
    the first [NUM_FINGERS + 1] of them. *)
Lemma scan_stores_peaks uninit c points : forall i,
  length (fingers c) = Z.to_nat (NUM_FINGERS + 1) ->
  (i <= length points)%nat ->
  let pk := peaks_below uninit c points i in
  match scan_contour (take i points) (scan_start uninit c) with
  | Next s =>
      num_fingers s.1 = Z.of_nat (length pk)
      /\ (length pk < 6)%nat
      /\ fingers s.1 = pk ++ drop (length pk) (fingers c)
  | Break s =>
      (6 <= length pk)%nat
      /\ num_fingers s.1 = 6
      /\ fingers s.1 = take 6 pk ++ drop 6 (fingers c)
  end.
Proof.
  induction i as [|i IH]; intros Hsix Hi; cbn zeta.
  - rewrite take_0. cbn. rewrite drop_0. split_and!; [done | lia | done].
  - specialize (IH Hsix ltac:(lia)). cbn zeta in IH.
    destruct (lookup_lt_is_Some_2 points i ltac:(lia)) as [p Hp].
    rewrite (take_S_r _ _ _ Hp), scan_contour_app.
    cbn [peaks_below].
    destruct (scan_contour (take i points) (scan_start uninit c))
      as [s|s] eqn:Hs.
    + destruct IH as (Hn & Hlt & Hf).
      destruct (pass_at_index uninit c points i p s Hp Hs)
        as (Hr & Him & Hlen & Hcnt & Hpass).
      pose proof (scan_point_count p s.1 s.2 Hcnt) as Hflow.
      rewrite <- surjective_pairing in Hflow.
      rewrite (is_finger_image s.1 c _ _ Him), Hr in Hpass.
      fold (peak_at uninit c points i) in Hpass.
      cbn [scan_contour]. unfold NUM_FINGERS in *.
      destruct (peak_at uninit c points i).
      * destruct Hpass as [Hgrow Hins]. cbn [max_point] in Hins.
        rewrite Hn, Nat2Z.id, Hf in Hins.
        assert (Hroom : (length (peaks_below uninit c points i)
                         < length (fingers c))%nat).
        { rewrite Hsix. unfold NUM_FINGERS. lia. }
        rewrite insert_after_stored in Hins by done.
        destruct (scan_point p s) as [s'|s']; cbn [flow_state] in *;
          rewrite length_app; cbn [length].
        -- split_and!; [lia | lia |]. rewrite Hins. f_equal. f_equal. lia.
        -- split_and!; [lia | lia |]. rewrite Hins.
           rewrite take_ge by (rewrite length_app; cbn; lia).
           f_equal. f_equal. lia.
      * destruct Hpass as [Hsame Hbuf]. rewrite app_nil_r.
        destruct (scan_point p s) as [s'|s']; cbn [flow_state] in *.
        -- split_and!; [lia | lia | by rewrite Hbuf].
        -- lia.
    + destruct IH as (Hge & Hn & Hf). rewrite length_app.
      split_and!; [lia | done |]. by rewrite take_app_le by lia.
Qed.

Lemma find_fingers_stores_peaks_fact uninit c points h :
  length (fingers c) = Z.to_nat (NUM_FINGERS + 1) ->
  contour c = Some points ->
  hull c = Some h ->
  let pk := peaks_below uninit c points (length points) in
  let c' := find_fingers uninit c in
  num_fingers c' = Z.of_nat (length pk `min` 6)
  /\ fingers c' = take 6 pk ++ drop (length pk `min` 6) (fingers c).
Proof.
  intros Hsix Hc Hh. cbn zeta. rewrite find_fingers_unfold, Hc, Hh.
  pose proof (scan_stores_peaks uninit c points (length points)
                Hsix ltac:(lia)) as Hinv.
  cbn zeta in Hinv. rewrite take_ge in Hinv by lia.
  destruct (scan_contour points (scan_start uninit c)) as [s|s];
    cbn [flow_state].
  - destruct Hinv as (-> & Hlt & ->).
    rewrite Nat.min_l, take_ge by lia. done.
  - destruct Hinv as (Hge & -> & ->). rewrite Nat.min_r by lia. done.
Qed.

(** The fingers after [find_fingers] on a contour with a hull: the first
    [NUM_FINGERS + 1] peaks of the contour, in its order, fill the front of
    the buffer, [num_fingers] counts them, and the slots behind keep what
    they held. *)
Theorem find_fingers_stores_peaks uninit c points h :
  length (fingers c) = Z.to_nat (NUM_FINGERS + 1) ->
  contour c = Some points ->
  hull c = Some h ->
  let pk := peaks_below uninit c points (length points) in
  let c' := find_fingers uninit c in
  num_fingers c' = Z.of_nat (length pk `min` 6)
  /\ fingers c' = take 6 pk ++ drop (length pk `min` 6) (fingers c).
Proof. exact (find_fingers_stores_peaks_fact uninit c points h). Qed.

End PeakList.

Section PeakProperties.

Context {Pixels Mask : Type}.
Implicit Types (c : ctx Pixels Mask) (r : regs) (s : ctx Pixels Mask * regs)
         (points buf pk : list CvPoint).

(** Two contexts with the same fields are the same. *)
Lemma ctx_eq c1 c2 :
  image c1 = image c2 -> thr_image c1 = thr_image c2 ->
  contour c1 = contour c2 -> hull c1 = hull c2 ->
  hand_center c1 = hand_center c2 -> fingers c1 = fingers c2 ->
  defects c1 = defects c2 -> num_fingers c1 = num_fingers c2 ->
  hand_radius c1 = hand_radius c2 -> num_defects c1 = num_defects c2 ->
  c1 = c2.
Proof. destruct c1, c2. cbn. by intros -> -> -> -> -> -> -> -> -> ->. Qed.

Lemma scan_contour_keeps points : forall s,
  let c' := (flow_state (scan_contour points s)).1 in
  image c' = image s.1 /\ thr_image c' = thr_image s.1
  /\ contour c' = contour s.1 /\ hull c' = hull s.1
  /\ hand_center c' = hand_center s.1 /\ defects c' = defects s.1
  /\ hand_radius c' = hand_radius s.1 /\ num_defects c' = num_defects s.1
  /\ length (fingers c') = length (fingers s.1).
Proof.
  induction points as [|p points IH]; intros [c r]; [done|].
  cbn zeta. cbn [scan_contour].
  pose proof (scan_point_frame p c r) as Hp. cbn zeta in Hp.
  destruct (scan_point p (c, r)) as [s'|s']; cbn [flow_state fst] in *;
    [|done].
  specialize (IH s'). cbn zeta in IH.
  destruct Hp as (<- & <- & <- & <- & <- & <- & <- & <- & <-). exact IH.
Qed.

Lemma find_fingers_touches_fingers_only_fact uninit c :
  let c' := find_fingers uninit c in
  c' = set_fingers (fingers c') (set_num_fingers (num_fingers c') c)
  /\ length (fingers c') = length (fingers c).
Proof.
  cbn zeta. rewrite find_fingers_unfold.
  destruct (contour c) as [points|] eqn:Hc;
    [destruct (hull c) eqn:Hh|]; try by (split; [apply ctx_eq|]).
  destruct (scan_contour_keeps points (scan_start uninit c))
    as (H1 & H2 & H3 & H4 & H5 & H6 & H7 & H8 & H9).
  cbn zeta in *. split; [by apply ctx_eq|done].
Qed.

(** [find_fingers] writes [fingers] and [num_fingers] and nothing else, and
    keeps the size of the buffer of fingers. *)
Theorem find_fingers_touches_fingers_only uninit c :
  let c' := find_fingers uninit c in
  c' = set_fingers (fingers c') (set_num_fingers (num_fingers c') c)
  /\ length (fingers c') = length (fingers c).
Proof. exact (find_fingers_touches_fingers_only_fact uninit c). Qed.

(** A peak of the list is a contour point [points[j]] that is not the last
    one, passes the two edge tests and is a strict peak of the distance
    between its neighbours (0 standing for the neighbour before index 0). *)
Lemma peaks_below_peak uninit c points q : forall n,
  0 <= height (image c) <= CInt.int_max ->
  (n <= length points)%nat ->
  q ∈ peaks_below uninit c points n ->
  exists j,
    (S j < n)%nat /\ points !! j = Some q
    /\ pt_x q <> 0 /\ pt_y q < height (image c) - 10
    /\ dist_at c points (S j) < dist_at c points j
    /\ prev_dist c points j < dist_at c points j.
Proof.
  intros n Hh. induction n as [|i IH]; intros Hn Hq; cbn [peaks_below] in Hq.
  - by apply elem_of_nil in Hq.
  - apply elem_of_app in Hq as [Hq|Hq].
    + destruct (IH ltac:(lia) Hq) as (j & Hj & Hrest). exists j.
      split; [lia|done].
    + destruct (peak_at uninit c points i) eqn:Hpeak;
        [|by apply elem_of_nil in Hq].
      apply list_elem_of_singleton in Hq as ->.
      unfold peak_at in Hpeak.
      destruct i as [|j]; [by rewrite is_finger_first in Hpeak|].
      apply is_finger_spec in Hpeak; [|done]. cbn [dist1 dist2 max_point] in Hpeak.
      destruct (lookup_lt_is_Some_2 points j ltac:(lia)) as [q Hq].
      exists j. unfold prev_point, prev_dist, prev2_dist in *.
      rewrite Hq in *. cbn [default] in *.
      destruct Hpeak as (H1 & H2 & H3 & H4).
      split_and!; try done; [lia|]. destruct j; lia.
Qed.

(** Every finger that [find_fingers] reports, in a slot below
    [num_fingers], is such a point of the contour: never the last point of
    the contour, never a point with [x = 0] or within 10 rows of the
    bottom of the frame. *)
Theorem reported_finger_is_peak uninit c points h (k : nat) q :
  length (fingers c) = Z.to_nat (NUM_FINGERS + 1) ->
  0 <= height (image c) <= CInt.int_max ->
  contour c = Some points ->
  hull c = Some h ->
  Z.of_nat k < num_fingers (find_fingers uninit c) ->
  fingers (find_fingers uninit c) !! k = Some q ->
  exists j,
    (S j < length points)%nat /\ points !! j = Some q
    /\ pt_x q <> 0 /\ pt_y q < height (image c) - 10
    /\ dist_at c points (S j) < dist_at c points j
    /\ prev_dist c points j < dist_at c points j.
Proof.
  intros Hsix Hh Hc Hhull Hk Hq.
  destruct (find_fingers_stores_peaks_fact uninit c points h Hsix Hc Hhull)
    as [Hn Hf]. cbn zeta in Hn, Hf. rewrite Hn in Hk. rewrite Hf in Hq.
  rewrite lookup_app_l in Hq by (rewrite length_take; lia).
  apply lookup_take_Some in Hq as [Hq _].
  apply (peaks_below_peak uninit c points q (length points) Hh ltac:(lia)).
  by apply list_elem_of_lookup_2 in Hq.
Qed.

Lemma peaks_below_ext uninit c1 c2 points n :
  image c1 = image c2 -> hand_center c1 = hand_center c2 ->
  peaks_below uninit c1 points n = peaks_below uninit c2 points n.
Proof.
  intros Him Hcen. induction n as [|i IH]; [done|].
  cbn [peaks_below]. rewrite IH. unfold peak_at.
  rewrite (is_finger_image c1 c2 _ _ Him).
  unfold prev_dist, prev2_dist, dist_at. by rewrite Hcen.
Qed.

(** Running [find_fingers] again on its own result changes nothing. *)
Theorem find_fingers_idempotent uninit c :
  length (fingers c) = Z.to_nat (NUM_FINGERS + 1) ->
  find_fingers uninit (find_fingers uninit c) = find_fingers uninit c.
Proof.
  intros Hsix.
  destruct (find_fingers_touches_fingers_only_fact uninit c) as [Hc' Hlen].
  destruct (find_fingers_touches_fingers_only_fact uninit (find_fingers uninit c))
    as [Hc'' _]. cbn zeta in *.
  set (c' := find_fingers uninit c) in *.
  set (c'' := find_fingers uninit c') in *.
  assert (Hsame : image c' = image c /\ thr_image c' = thr_image c
                  /\ contour c' = contour c /\ hull c' = hull c
                  /\ hand_center c' = hand_center c /\ defects c' = defects c
                  /\ hand_radius c' = hand_radius c
                  /\ num_defects c' = num_defects c) by by rewrite Hc'.
  destruct Hsame as (H1 & H2 & H3 & H4 & H5 & H6 & H7 & H8).
  assert (Hres : num_fingers c'' = num_fingers c'
                 /\ fingers c'' = fingers c').
  { destruct (contour c) as [points|] eqn:Hc;
      [destruct (hull c) as [h|] eqn:Hh|].
    - destruct (find_fingers_stores_peaks_fact uninit c points h Hsix Hc Hh)
        as [Hn Hf].
      destruct (find_fingers_stores_peaks_fact uninit c' points h) as [Hn' Hf'];
        [by rewrite Hlen | by rewrite H3 | by rewrite H4 |].
      cbn zeta in *. fold c' in Hn, Hf. fold c'' in Hn', Hf'.
      rewrite (peaks_below_ext uninit c' c points _ H1 H5) in Hn', Hf'.
      split; [by rewrite Hn', Hn|]. rewrite Hf', Hf.
      rewrite drop_app_length'; [done|]. rewrite length_take. lia.
    - assert (E1 : c' = set_num_fingers 0 c)
        by (unfold c'; by rewrite find_fingers_unfold, Hc, Hh).
      assert (E2 : c'' = set_num_fingers 0 c')
        by (unfold c''; by rewrite find_fingers_unfold, H3, H4).
      rewrite E2. cbn. by rewrite E1.
    - assert (E1 : c' = set_num_fingers 0 c)
        by (unfold c'; by rewrite find_fingers_unfold, Hc).
      assert (E2 : c'' = set_num_fingers 0 c')
        by (unfold c''; by rewrite find_fingers_unfold, H3).
      rewrite E2. cbn. by rewrite E1.
  }
  destruct Hres as [Hn Hf]. rewrite Hc''. rewrite Hn, Hf.
  rewrite Hc' at 3. by apply ctx_eq.
Qed.

End PeakProperties.

(** ** What find_convex_hull stores *)

Lemma sum_depth_points_buffer arr : forall i x y pre suf,
  0 <= i -> length pre = Z.to_nat i ->
  length (pre ++ suf) = Z.to_nat NUM_DEFECTS ->
  (sum_depth_points arr i x y (pre ++ suf)).2
  = pre ++ take (Z.to_nat NUM_DEFECTS - Z.to_nat i) (depth_point <$> arr)
        ++ drop ((Z.to_nat NUM_DEFECTS - Z.to_nat i) `min` length arr) suf.
Proof.
  unfold NUM_DEFECTS.
  induction arr as [|d arr IH]; intros i x y pre suf Hi Hpre Hlen.
  - cbn. by rewrite take_nil, Nat.min_0_r.
  - cbn [sum_depth_points]. unfold NUM_DEFECTS. rewrite length_app in Hlen.
    destruct (Z.ltb_spec i 8) as [Hlt|Hge].
    + destruct suf as [|x0 suf]; [cbn in Hlen; lia|].
      replace (Z.to_nat i) with (length pre + 0)%nat at 1 by lia.
      rewrite insert_app_r. cbn [insert list_insert].
      replace (cvPoint (pt_x (depth_point d)) (pt_y (depth_point d)))
        with (depth_point d) by by destruct (depth_point d).
      rewrite (cons_middle _ pre), app_assoc.
      rewrite IH; [|lia|rewrite length_app; cbn; lia
                   |rewrite !length_app in *; cbn in *; lia].
      replace (Z.to_nat 8 - Z.to_nat i)%nat
        with (S (Z.to_nat 8 - Z.to_nat (i + 1))) by lia.
      rewrite fmap_cons. cbn [take length]. rewrite <- Nat.succ_min_distr.
      cbn [drop]. by rewrite <- app_assoc.
    + assert (suf = []) as -> by (destruct suf; [done|cbn in Hlen; lia]).
      replace (Z.to_nat 8 - Z.to_nat i)%nat with O by lia.
      by cbn.
Qed.


Section HullProperties.

Context {Pixels Mask : Type}.
Implicit Types (c : ctx Pixels Mask) (arr : list CvConvexityDefect).

Variable cvConvexHull2 : list CvPoint -> option (list CvPoint).
Variable cvConvexityDefects :
  list CvPoint -> list CvPoint -> option (list CvConvexityDefect).

Lemma aggregate_defects_keeps found c :
  let c' := aggregate_defects found c in
  image c' = image c /\ thr_image c' = thr_image c
  /\ contour c' = contour c /\ hull c' = hull c
  /\ fingers c' = fingers c /\ num_fingers c' = num_fingers c.
Proof.
  cbn zeta. unfold aggregate_defects. destruct found as [arr|]; [|done].
  destruct (_ =? _); [done|].
  by destruct (sum_depth_points _ _ _ _ _) as [[x y] buf].
Qed.

Lemma find_convex_hull_unfold c :
  find_convex_hull cvConvexHull2 cvConvexityDefects c
  = match contour c with
    | None => set_hull None c
    | Some points =>
        match cvConvexHull2 points with
        | Some h =>
            aggregate_defects (cvConvexityDefects points h)
                              (set_hull (Some h) c)
        | None => set_hull None c
        end
    end.
Proof.
  unfold find_convex_hull. cbn [contour set_hull hull].
  destruct (contour c) as [points|]; [|done].
  by destruct (cvConvexHull2 points).
Qed.

Lemma defects_buffer_after_aggregation_fact c arr :
  arr <> [] ->
  length (defects c) = Z.to_nat NUM_DEFECTS ->
  defects (aggregate_defects (Some arr) c)
  = take (Z.to_nat NUM_DEFECTS) (depth_point <$> arr)
    ++ drop (Z.to_nat NUM_DEFECTS `min` length arr) (defects c).
Proof.
  intros Hne Hlen.
  destruct (aggregate_defects_fields c arr Hne) as (_ & _ & _ & ->).
  pose proof (sum_depth_points_buffer arr 0 0 0 [] (defects c)
                ltac:(done) ltac:(done) Hlen) as Hbuf.
  cbn [app] in Hbuf. rewrite Hbuf. by rewrite Nat.sub_0_r.
Qed.

(** The buffer of defect points after a pass with a non-empty sequence of
    defects: its first slots hold the depth points of the first
    [NUM_DEFECTS] defects, in their order, and the slots behind keep what
    they held. *)
Theorem defects_buffer_after_aggregation c arr :
  arr <> [] ->
  length (defects c) = Z.to_nat NUM_DEFECTS ->
  defects (aggregate_defects (Some arr) c)
  = take (Z.to_nat NUM_DEFECTS) (depth_point <$> arr)
    ++ drop (Z.to_nat NUM_DEFECTS `min` length arr) (defects c).
Proof. exact (defects_buffer_after_aggregation_fact c arr). Qed.

Lemma find_convex_hull_keeps_fact c :
  let c' := find_convex_hull cvConvexHull2 cvConvexityDefects c in
  image c' = image c /\ thr_image c' = thr_image c
  /\ contour c' = contour c
  /\ fingers c' = fingers c /\ num_fingers c' = num_fingers c
  /\ hull c' = match contour c with
               | Some points => cvConvexHull2 points
               | None => None
               end.
Proof.
  cbn zeta. rewrite find_convex_hull_unfold.
  destruct (contour c) as [points|] eqn:Hc; [|by cbn].
  destruct (cvConvexHull2 points) as [h|] eqn:Hh; [|by cbn].
  destruct (aggregate_defects_keeps (cvConvexityDefects points h)
              (set_hull (Some h) c)) as (-> & -> & -> & -> & -> & ->).
  by cbn.
Qed.

(** [find_convex_hull] never touches the images, the contour, the fingers
    or their number; the hull it leaves is the one [cvConvexHull2] returns
    for the stored contour, and null without a contour. *)
Theorem find_convex_hull_keeps c :
  let c' := find_convex_hull cvConvexHull2 cvConvexityDefects c in
  image c' = image c /\ thr_image c' = thr_image c
  /\ contour c' = contour c
  /\ fingers c' = fingers c /\ num_fingers c' = num_fingers c
  /\ hull c' = match contour c with
               | Some points => cvConvexHull2 points
               | None => None
               end.
Proof. exact (find_convex_hull_keeps_fact c). Qed.

(** With depth points in the image, the centre stored is a pixel of the
    image range and the radius stored lies between 0 and 46340: none of
    the [int] sums of the two loops overflows. *)
Theorem hand_model_in_range c arr :
  arr <> [] ->
  Forall pixel (depth_point <$> arr) ->
  Z.of_nat (length arr) < 32768 ->
  pixel (hand_center (aggregate_defects (Some arr) c))
  /\ 0 <= hand_radius (aggregate_defects (Some arr) c) <= 46340.
Proof.
  intros Hne Hpix Hlen.
  pose proof (hand_center_pixel c arr Hne Hpix) as Hc. split; [done|].
  destruct (aggregate_defects_fields c arr Hne) as (Hcen & -> & _).
  rewrite Hcen in Hc. destruct Hc as [Hx Hy]. cbn [pt_x pt_y] in Hx, Hy.
  destruct (sum_distances_exact arr _ _ 0 Hpix Hx Hy) as [_ Hb];
    [lia | in_int |].
  assert (Hpos : 0 < Z.of_nat (length arr))
    by (destruct arr; [done | cbn; lia]).
  set (total := Z.of_nat (length arr)) in *.
  set (dist := sum_distances _ _ _ _) in *.
  assert (0 <= dist ÷ total <= 46340).
  { split; [apply Z.quot_pos; lia|]. apply Z.quot_le_upper_bound; lia. }
  unfold CInt.div. by rewrite wrap_id by in_int.
Qed.


End HullProperties.

Section HullTwice.

Context {Pixels Mask : Type}.
Implicit Types (c : ctx Pixels Mask).

Variable cvConvexHull2 : list CvPoint -> option (list CvPoint).
Variable cvConvexityDefects :
  list CvPoint -> list CvPoint -> option (list CvConvexityDefect).


End HullTwice.

(** ** The contour that find_contour keeps *)

Section LargestContour.

Context {Pixels Mask : Type}.
Implicit Types (c : ctx Pixels Mask) (contours : list (list CvPoint)).

Variable cvFindContours : Mask -> list (list CvPoint).
Variable cvContourArea : list CvPoint -> Q.
Variable cvApproxPoly : list CvPoint -> option (list CvPoint).

Local Abbreviation area_of pts := (Qabs (cvContourArea pts)).

(** The selection loop keeps what it had when no contour is larger than
    the running maximum. *)
Lemma select_largest_keeps contours : forall max_area kept,
  (forall pts, pts ∈ contours -> (area_of pts <= max_area)%Q) ->
  select_largest cvContourArea contours max_area kept = kept.
Proof.
  induction contours as [|tmp contours IH]; intros max_area kept Hall;
    [done|].
  cbn [select_largest].
  destruct (Qlt_le_dec max_area (area_of tmp)) as [Hlt|Hle].
  - exfalso. eapply Qlt_irrefl, Qlt_le_trans; [exact Hlt|].
    apply Hall, elem_of_cons. by left.
  - apply IH. intros pts Hin. apply Hall, elem_of_cons. by right.
Qed.

(** The selection loop ends with the first contour of the greatest size,
    when that size is above the running maximum it starts from. *)
Lemma select_largest_first_max before best after : forall max_area kept,
  (max_area < area_of best)%Q ->
  (forall pts, pts ∈ before -> (area_of pts < area_of best)%Q) ->
  (forall pts, pts ∈ after -> (area_of pts <= area_of best)%Q) ->
  select_largest cvContourArea (before ++ best :: after) max_area kept
  = Some best.
Proof.
  induction before as [|b before IH]; intros max_area kept Hbig Hb Ha;
    cbn [app select_largest].
  - destruct (Qlt_le_dec max_area (area_of best)) as [Hlt|Hle].
    + by apply select_largest_keeps.
    + exfalso. eapply Qlt_irrefl, Qlt_le_trans; [exact Hbig|exact Hle].
  - assert (Hb' : forall pts, pts ∈ before -> (area_of pts < area_of best)%Q)
      by (intros pts Hin; apply Hb, elem_of_cons; by right).
    destruct (Qlt_le_dec max_area (area_of b)) as [Hlt|Hle].
    + apply IH; [|done..]. apply Hb, elem_of_cons. by left.
    + by apply IH.
Qed.

(** When every contour that [cvFindContours] returns has area zero, and so
    also when it returns none, [find_contour] changes nothing. *)
Theorem find_contour_ignores_flat_contours c :
  (forall pts, pts ∈ cvFindContours (thr_image c) ->
               (cvContourArea pts == 0)%Q) ->
  find_contour cvFindContours cvContourArea cvApproxPoly c = c.
Proof.
  intros Hflat. apply find_contour_none, select_largest_keeps.
  intros pts Hin. rewrite (Hflat pts Hin). done.
Qed.

(** Otherwise [find_contour] stores the polygon that [cvApproxPoly] makes
    of the contour of the greatest absolute area, the first one among
    equals, and touches nothing else. *)
Theorem find_contour_stores_largest c before best after :
  cvFindContours (thr_image c) = before ++ best :: after ->
  (0 < Qabs (cvContourArea best))%Q ->
  (forall pts, pts ∈ before ->
               (Qabs (cvContourArea pts) < Qabs (cvContourArea best))%Q) ->
  (forall pts, pts ∈ after ->
               (Qabs (cvContourArea pts) <= Qabs (cvContourArea best))%Q) ->
  find_contour cvFindContours cvContourArea cvApproxPoly c
  = set_contour (cvApproxPoly best) c.
Proof.
  intros Hl Hpos Hb Ha. unfold find_contour. cbn zeta.
  by rewrite Hl, (select_largest_first_max before best after).
Qed.

End LargestContour.

(** ** What display draws, what the loop records *)

Section DisplayProperties.

Context {Pixels Mask : Type}.
Implicit Types (c : ctx Pixels Mask) (img : IplImage Pixels).

Variable stray : Z -> CvPoint.

Lemma overlay_nil c : set_image (overlay [] (image c)) c = c.
Proof. destruct c as [[] ?]. unfold overlay. cbn. by rewrite app_nil_r. Qed.

Lemma overlay_draw_twice s1 s2 more c :
  set_image
    (overlay more
       (image (set_image (draw s2 (image (set_image (draw s1 (image c)) c)))
                 (set_image (draw s1 (image c)) c))))
    (set_image (draw s2 (image (set_image (draw s1 (image c)) c)))
       (set_image (draw s1 (image c)) c))
  = set_image (overlay (s1 :: s2 :: more) (image c)) c.
Proof. unfold set_image, overlay, draw. cbn. by rewrite <- !app_assoc. Qed.

Lemma overlay_draw_once s1 more c :
  set_image (overlay more (image (set_image (draw s1 (image c)) c)))
            (set_image (draw s1 (image c)) c)
  = set_image (overlay (s1 :: more) (image c)) c.
Proof. unfold set_image, overlay, draw. cbn. by rewrite <- !app_assoc. Qed.

(** The loop of lines 286-293 within the buffer: a circle and a line to
    the centre for each of the slots it visits. *)
Lemma draw_fingers_marks left : forall i c,
  0 <= i -> (Z.to_nat i + left <= length (fingers c))%nat ->
  draw_fingers stray left i c
  = set_image
      (overlay
         (concat ((fun f => [Circle f 10 GREEN 3;
                             Line (hand_center c) f YELLOW 1])
                    <$> take left (drop (Z.to_nat i) (fingers c))))
         (image c)) c.
Proof.
  induction left as [|left IH]; intros i c Hi Hroom.
  - cbn. by rewrite overlay_nil.
  - cbn [draw_fingers]. cbn zeta.
    destruct (lookup_lt_is_Some_2 (fingers c) (Z.to_nat i) ltac:(lia))
      as [f Hf].
    rewrite IH by (cbn; lia). cbn [fingers hand_center set_image].
    rewrite (drop_S _ _ _ Hf). cbn [take fmap list_fmap concat app].
    unfold read. rewrite Hf. cbn [default].
    replace (Z.to_nat (i + 1)) with (S (Z.to_nat i)) by lia.
    apply overlay_draw_twice.
Qed.

(** The loop of lines 295-298 within the buffer. *)
Lemma draw_defects_marks left : forall i c,
  0 <= i -> (Z.to_nat i + left <= length (defects c))%nat ->
  draw_defects stray left i c
  = set_image
      (overlay
         ((fun d => Circle d 2 GREY 2)
            <$> take left (drop (Z.to_nat i) (defects c)))
         (image c)) c.
Proof.
  induction left as [|left IH]; intros i c Hi Hroom.
  - cbn. by rewrite overlay_nil.
  - cbn [draw_defects]. cbn zeta.
    destruct (lookup_lt_is_Some_2 (defects c) (Z.to_nat i) ltac:(lia))
      as [d Hd].
    rewrite IH by (cbn; lia). cbn [defects set_image].
    rewrite (drop_S _ _ _ Hd). cbn [take fmap list_fmap].
    unfold read. rewrite Hd. cbn [default].
    replace (Z.to_nat (i + 1)) with (S (Z.to_nat i)) by lia.
    apply overlay_draw_once.
Qed.

(** [display] changes nothing of the context but the image, and there it
    only adds shapes on top: the pixels, the size and what was drawn before
    stay; with a number of fingers other than [NUM_FINGERS] it adds none. *)
Theorem display_only_draws_on_top c :
  exists more,
    (display stray c).1 = set_image (overlay more (image c)) c
    /\ (num_fingers c <> NUM_FINGERS -> more = []).
Proof.
  unfold display. cbn [fst].
  destruct (Z.eqb_spec (num_fingers c) NUM_FINGERS) as [H5|H5].
  - destruct (draw_hand_overlay stray c) as [more ->]. by eexists.
  - exists []. by rewrite overlay_nil.
Qed.

Lemma display_adds_shapes c :
  exists more, (display stray c).1 = set_image (overlay more (image c)) c.
Proof.
  unfold display. cbn [fst]. destruct (_ =? _).
  - destruct (draw_hand_overlay stray c) as [more ->]. by eexists.
  - exists []. by rewrite overlay_nil.
Qed.

(** With [NUM_FINGERS] fingers, and [num_defects] within the buffer of
    defect points, the overlay is the centre dot, the radius circle, a
    marker and a line to the centre for each of the first [NUM_FINGERS]
    slots of [fingers], and a dot for each of the first [num_defects]
    slots of [defects], in this order. *)
Theorem display_marks_stored_points c :
  num_fingers c = NUM_FINGERS ->
  (Z.to_nat NUM_FINGERS <= length (fingers c))%nat ->
  0 <= num_defects c <= Z.of_nat (length (defects c)) ->
  (display stray c).1
  = set_image
      (overlay
         (Circle (hand_center c) 5 PURPLE 1
          :: Circle (hand_center c) (hand_radius c) RED 1
          :: concat ((fun f => [Circle f 10 GREEN 3;
                                Line (hand_center c) f YELLOW 1])
                       <$> take (Z.to_nat NUM_FINGERS) (fingers c))
          ++ ((fun d => Circle d 2 GREY 2)
                <$> take (Z.to_nat (num_defects c)) (defects c)))
         (image c)) c.
Proof.
  intros H5 Hf Hd. unfold display. cbn [fst]. rewrite H5, Z.eqb_refl.
  unfold draw_hand. cbn zeta. cbn [num_fingers num_defects set_image].
  rewrite H5.
  rewrite draw_fingers_marks by (cbn; lia).
  rewrite draw_defects_marks by (cbn; lia).
  cbn [fingers defects hand_center hand_radius set_image].
  rewrite !drop_0.
  unfold set_image, overlay, draw. cbn. by rewrite <- !app_assoc.
Qed.

End DisplayProperties.

Section LoopProperties.

Context {Pixels Mask : Type}.
Implicit Types (c : ctx Pixels Mask) (frame : IplImage Pixels)
         (frames : list (IplImage Pixels)).

Variable skin_filter : Pixels -> Mask.
Variable cvFindContours : Mask -> list (list CvPoint).
Variable cvContourArea : list CvPoint -> Q.
Variable cvApproxPoly : list CvPoint -> option (list CvPoint).
Variable cvConvexHull2 : list CvPoint -> option (list CvPoint).
Variable cvConvexityDefects :
  list CvPoint -> list CvPoint -> option (list CvConvexityDefect).
Variable stray : Z -> CvPoint.

Local Abbreviation pass :=
  (frame_iteration skin_filter cvFindContours cvContourArea cvApproxPoly
     cvConvexHull2 cvConvexityDefects stray).
Local Abbreviation passes :=
  (run_frames skin_filter cvFindContours cvContourArea cvApproxPoly
     cvConvexHull2 cvConvexityDefects stray).
Local Abbreviation loop :=
  (main_loop skin_filter cvFindContours cvContourArea cvApproxPoly
     cvConvexHull2 cvConvexityDefects stray).

(** The three calls of a pass: the frame with what [display] drew on it is
    shown and written, the mask of the frame is shown. *)
Lemma frame_iteration_calls uninit frame c :
  exists more,
    (pass uninit frame c).2
    = [cvShowImage_output (overlay more frame);
       cvShowImage_thresholded (skin_filter (pixels frame));
       cvWriteFrame (overlay more frame)].
Proof.
  unfold frame_iteration.
  set (c1 := filter_and_threshold skin_filter (set_image frame c)).
  set (c2 := find_contour cvFindContours cvContourArea cvApproxPoly c1).
  set (c3 := find_convex_hull cvConvexHull2 cvConvexityDefects c2).
  set (c4 := find_fingers uninit c3).
  assert (Him : image c4 = frame
                /\ thr_image c4 = skin_filter (pixels frame)).
  { destruct (find_fingers_images uninit c3) as [H4 H4'].
    destruct (find_convex_hull_images cvConvexHull2 cvConvexityDefects c2)
      as [H3 H3'].
    destruct (find_contour_images cvFindContours cvContourArea cvApproxPoly c1)
      as [H2 H2'].
    subst c4. rewrite H4, H4'. subst c3. rewrite H3, H3'.
    subst c2. by rewrite H2, H2'. }
  destruct Him as [Him Hthr].
  pose proof (display_calls stray c4) as Hcalls.
  destruct (display_adds_shapes stray c4) as [more Hmore].
  destruct (display stray c4) as [c5 calls]. cbn [fst snd] in *.
  exists more. subst calls c5. cbn. by rewrite Him, Hthr.
Qed.

Lemma written_after_pass (img : IplImage Pixels) (mask : Mask)
      (calls : list (gui_call Pixels Mask)) :
  written ([cvShowImage_output img; cvShowImage_thresholded mask;
            cvWriteFrame img] ++ calls) = img :: written calls
  /\ shown ([cvShowImage_output img; cvShowImage_thresholded mask;
             cvWriteFrame img] ++ calls) = img :: shown calls.
Proof. done. Qed.

(** Over any frames, the loop body shows and writes every frame once and
    in order, each frame as captured except for shapes drawn on top, the
    frame written being the one shown; it makes three calls per frame. *)
Theorem run_frames_records_every_frame uninit frames : forall c,
  let calls := (passes uninit frames c).2 in
  written calls = shown calls
  /\ Forall2 (fun img frame => exists more, img = overlay more frame)
             (written calls) frames
  /\ length calls = (3 * length frames)%nat.
Proof.
  induction frames as [|frame later IH]; intros c; cbn zeta.
  - cbn. split_and!; [done | constructor | done].
  - cbn [run_frames].
    destruct (frame_iteration_calls uninit frame c) as [more Hcalls].
    destruct (pass uninit frame c) as [c1 calls1]. cbn [snd] in Hcalls.
    specialize (IH c1). cbn zeta in IH.
    destruct (passes uninit later c1) as [c2 calls2]. cbn [snd] in *.
    destruct IH as (Hsame & Hall & Hlen). subst calls1.
    destruct (written_after_pass (overlay more frame)
                (skin_filter (pixels frame)) calls2) as [-> ->].
    split_and!.
    + by f_equal.
    + constructor; [by exists more|done].
    + cbn [length app]. lia.
Qed.

(** The [do .. while]: the loop runs the pass of every input up to and
    including the first one whose key is ['q'], also when that is the
    first input, and none of the inputs behind it. *)
Theorem main_loop_stops_at_q uninit pre frame rest : forall c,
  Forall (fun input => input.2 <> key_q) pre ->
  loop uninit (pre ++ (frame, key_q) :: rest) c
  = Some (passes uninit (pre.*1 ++ [frame]) c).
Proof.
  induction pre as [|[f key] pre IH]; intros c Hkeys.
  - cbn [app fmap list_fmap main_loop run_frames].
    destruct (pass uninit frame c) as [c1 calls1].
    rewrite Z.eqb_refl. by rewrite app_nil_r.
  - apply Forall_cons in Hkeys as [Hkey Hkeys]. cbn in Hkey.
    cbn [app fmap list_fmap main_loop run_frames fst].
    destruct (pass uninit f c) as [c1 calls1].
    destruct (Z.eqb_spec key key_q) as [|_]; [done|].
    rewrite (IH c1 Hkeys).
    by destruct (passes uninit (pre.*1 ++ [frame]) c1).
Qed.

(** The loop goes on as long as no key is ['q']. *)
Theorem main_loop_runs_without_q uninit inputs : forall c,
  loop uninit inputs c = None <-> Forall (fun input => input.2 <> key_q) inputs.
Proof.
  induction inputs as [|[f key] inputs IH]; intros c.
  - by split.
  - cbn [main_loop]. destruct (pass uninit f c) as [c1 calls1].
    rewrite Forall_cons. cbn [snd].
    destruct (Z.eqb_spec key key_q) as [Hq|Hq].
    + split; [done|]. by intros [? _].
    + specialize (IH c1). destruct (loop uninit inputs c1) as [[c2 calls2]|].
      * split; [done|]. intros [_ Hall]. by apply IH in Hall.
      * split; [|done]. intros _. split; [done|]. by apply IH.
Qed.

End LoopProperties.

(** ** The properties above on the sample frames *)

Lemma find_fingers_stores_peaks_witness :
  let pk := peaks_below (cvPoint 0 0) Demo.combed Demo.comb_head
              (length Demo.comb_head) in
  let c' := find_fingers (cvPoint 0 0) Demo.combed in
  num_fingers c' = Z.of_nat (length pk `min` 6)
  /\ fingers c' = take 6 pk ++ drop (length pk `min` 6) (fingers Demo.combed).
Proof.
  apply (find_fingers_stores_peaks (cvPoint 0 0) Demo.combed
           Demo.comb_head []); reflexivity.
Defined.

Lemma reported_finger_is_peak_witness :
  exists j,
    (S j < length Demo.comb_head)%nat
    /\ Demo.comb_head !! j = Some (cvPoint 5 50)
    /\ pt_x (cvPoint 5 50) <> 0
    /\ pt_y (cvPoint 5 50) < height (image Demo.combed) - 10
    /\ dist_at Demo.combed Demo.comb_head (S j)
       < dist_at Demo.combed Demo.comb_head j
    /\ prev_dist Demo.combed Demo.comb_head j
       < dist_at Demo.combed Demo.comb_head j.
Proof.
  apply (reported_finger_is_peak (cvPoint 0 0) Demo.combed Demo.comb_head
           [] 0%nat (cvPoint 5 50)); try reflexivity.
  cbn. in_int.
Defined.

Lemma find_fingers_idempotent_witness :
  find_fingers (cvPoint 0 0) (find_fingers (cvPoint 0 0) Demo.combed)
  = find_fingers (cvPoint 0 0) Demo.combed.
Proof. apply (find_fingers_idempotent (cvPoint 0 0) Demo.combed). reflexivity. Defined.

Lemma hand_center_mean_within_cap_witness :
  hand_center (aggregate_defects (Some Demo.square_defects) Demo.start)
  = Spec.center (depth_point <$> Demo.square_defects).
Proof.
  apply (hand_center_mean_within_cap Demo.start Demo.square_defects).
  - done.
  - repeat constructor; cbn; lia.
  - cbn. unfold NUM_DEFECTS. lia.
Defined.

Lemma defects_buffer_after_aggregation_witness :
  defects (aggregate_defects (Some Demo.square_defects) Demo.start)
  = take (Z.to_nat NUM_DEFECTS) (depth_point <$> Demo.square_defects)
    ++ drop (Z.to_nat NUM_DEFECTS `min` length Demo.square_defects)
            (defects Demo.start).
Proof.
  apply (defects_buffer_after_aggregation Demo.start Demo.square_defects).
  - done.
  - reflexivity.
Defined.

Lemma hand_model_in_range_witness :
  pixel (hand_center (aggregate_defects (Some Demo.nine_defects) Demo.start))
  /\ 0 <= hand_radius (aggregate_defects (Some Demo.nine_defects) Demo.start)
       <= 46340.
Proof.
  apply (hand_model_in_range Demo.start Demo.nine_defects).
  - done.
  - repeat constructor; cbn; lia.
  - cbn. lia.
Defined.


Lemma find_contour_ignores_flat_contours_witness :
  find_contour (fun _ : bool => [Demo.peak_contour])
    (fun _ => 0%Q) Demo.cvApproxPoly Demo.centered
  = Demo.centered.
Proof.
  apply (find_contour_ignores_flat_contours
           (fun _ : bool => [Demo.peak_contour]) (fun _ => 0%Q)
           Demo.cvApproxPoly Demo.centered).
  intros pts _. reflexivity.
Defined.

Lemma find_contour_stores_largest_witness :
  let by_length (pts : list CvPoint) := inject_Z (Z.of_nat (length pts)) in
  find_contour
    (fun _ : bool => [[cvPoint 1 1]; Demo.peak_contour; Demo.left_edge_contour])
    by_length Demo.cvApproxPoly Demo.centered
  = set_contour (Some Demo.peak_contour) Demo.centered.
Proof.
  apply (find_contour_stores_largest
           (fun _ : bool =>
              [[cvPoint 1 1]; Demo.peak_contour; Demo.left_edge_contour])
           (fun pts => inject_Z (Z.of_nat (length pts)))
           Demo.cvApproxPoly Demo.centered
           [[cvPoint 1 1]] Demo.peak_contour [Demo.left_edge_contour]).
  - reflexivity.
  - by vm_compute.
  - intros pts ->%list_elem_of_singleton. by vm_compute.
  - intros pts ->%list_elem_of_singleton. by vm_compute.
Defined.

Lemma display_only_draws_on_top_witness :
  exists more,
    (display Demo.stray Demo.start).1
    = set_image (overlay more (image Demo.start)) Demo.start
    /\ more = [].
Proof.
  destruct (display_only_draws_on_top Demo.stray Demo.start)
    as (more & Heq & Hnone).
  exists more. split; [exact Heq|]. apply Hnone. by vm_compute.
Defined.

Lemma display_marks_stored_points_witness :
  let c := set_num_fingers 5
             (aggregate_defects (Some Demo.square_defects) Demo.start) in
  length (drawn (image (display Demo.stray c).1)) = 16%nat.
Proof.
  cbn zeta.
  rewrite (display_marks_stored_points Demo.stray
             (set_num_fingers 5
                (aggregate_defects (Some Demo.square_defects) Demo.start))).
  - reflexivity.
  - reflexivity.
  - vm_compute. lia.
  - by vm_compute.
Defined.

Lemma main_loop_stops_at_q_witness :
  main_loop Demo.skin_filter (Demo.cvFindContours Demo.peak_contour)
    Demo.cvContourArea Demo.cvApproxPoly Demo.cvConvexHull2
    (Demo.cvConvexityDefects [Demo.defect 50 50]) Demo.stray (cvPoint 0 0)
    ([(Demo.hand_frame, -1)] ++ (Demo.empty_frame, key_q)
                                 :: [(Demo.hand_frame, -1)])
    Demo.start
  = Some (Demo.run Demo.peak_contour [Demo.defect 50 50]
            ([(Demo.hand_frame, -1)].*1 ++ [Demo.empty_frame]) Demo.start).
Proof.
  apply (main_loop_stops_at_q Demo.skin_filter
           (Demo.cvFindContours Demo.peak_contour) Demo.cvContourArea
           Demo.cvApproxPoly Demo.cvConvexHull2
           (Demo.cvConvexityDefects [Demo.defect 50 50]) Demo.stray
           (cvPoint 0 0) [(Demo.hand_frame, -1)] Demo.empty_frame
           [(Demo.hand_frame, -1)] Demo.start).
  repeat constructor. by vm_compute.
Defined.

(** Without a hull, or with a contour of fewer than two points,
    [find_fingers] only resets [num_fingers] to 0. *)
Theorem find_fingers_needs_two_points {Pixels Mask : Type} uninit
        (c : ctx Pixels Mask) :
  hull c = None
  \/ (forall points, contour c = Some points -> (length points <= 1)%nat) ->
  find_fingers uninit c = set_num_fingers 0 c.
Proof.
  intros Hshort. rewrite find_fingers_unfold.
  destruct (contour c) as [points|]; [|done].
  destruct (hull c); [|done].
  destruct Hshort as [|Hshort]; [done|].
  specialize (Hshort points eq_refl).
  destruct points as [|p [|q points]]; [done| |cbn in Hshort; lia].
  cbn [scan_contour]. unfold scan_start, scan_point.
  by rewrite is_finger_first.
Qed.

Lemma find_fingers_needs_two_points_witness :
  let c := set_hull (Some []) (set_contour (Some [cvPoint 5 50]) Demo.centered) in
  find_fingers (cvPoint 0 0) c = set_num_fingers 0 c.
Proof.
  apply (find_fingers_needs_two_points (cvPoint 0 0)
           (set_hull (Some [])
              (set_contour (Some [cvPoint 5 50]) Demo.centered))).
  right. intros points [= <-]. cbn. lia.
Defined.
